(** * DataSource: loading, name resolution and join of the country statistics

    A shallow embedding of [DataSource.ts]: the [Limit] tracker, the name
    resolution index and country info registry built by [readCountryInfoDB],
    the per-country join of [readCountryStats] and the top-level [loadData]
    with the query operations [getCountry], [getCountries], [getStatLimits].

    The transport layer ([text], [json], [dsvFormat]) is not modelled: the
    inputs of the model are the parsed reference records and the parsed rows
    of the five delimited sources. *)

From Stdlib Require Import ZArith Bool Ascii SpecFloat Lia.
From stdpp Require Import base option list gmap strings.

(** ** JavaScript strings

    A string is a sequence of code units; the model keeps the code units
    below 256, which is the alphabet Rocq's [string] offers. *)
Module JSString.

(** The code units below 256 that [String.prototype.trim] strips
    (WhiteSpace and LineTerminator): TAB, LF, VT, FF, CR, SP, NBSP. *)
Definition isWhiteSpace (c : ascii) : bool :=
  match N_of_ascii c with
  | 9%N | 10%N | 11%N | 12%N | 13%N | 32%N | 160%N => true
  | _ => false
  end.

Fixpoint trimStart (s : string) : string :=
  match s with
  | EmptyString => EmptyString
  | String c s' => if isWhiteSpace c then trimStart s' else s
  end.

Fixpoint trimEnd (s : string) : string :=
  match s with
  | EmptyString => EmptyString
  | String c s' =>
      match trimEnd s' with
      | EmptyString => if isWhiteSpace c then EmptyString else String c EmptyString
      | t => String c t
      end
  end.

Definition trim (s : string) : string := trimStart (trimEnd s).

Fixpoint startsWith (p s : string) : bool :=
  match p, s with
  | EmptyString, _ => true
  | String a p', String b s' => if Ascii.eqb a b then startsWith p' s' else false
  | String _ _, EmptyString => false
  end.

(** [s.indexOf(marker)]: the position of the first occurrence; JavaScript's
    [-1] is [None]. *)
Fixpoint indexOf (marker s : string) : option nat :=
  if startsWith marker s then Some 0%nat
  else match s with
       | EmptyString => None
       | String _ s' => S <$> indexOf marker s'
       end.

Fixpoint skip (n : nat) (s : string) : string :=
  match n, s with
  | O, _ => s
  | S n', String _ s' => skip n' s'
  | S _, EmptyString => EmptyString
  end.

Fixpoint upto (n : nat) (s : string) : string :=
  match n, s with
  | S n', String c s' => String c (upto n' s')
  | _, _ => EmptyString
  end.

(** [s.substring(start)] and [s.substring(start, end)]: indices beyond the
    length are clamped, and the two indices are swapped when [start > end]. *)
Definition substring (s : string) (start : nat) (end_ : option nat) : string :=
  match end_ with
  | None => skip start s
  | Some e => upto (Nat.max start e - Nat.min start e) (skip (Nat.min start e) s)
  end.

End JSString.

(** ** JavaScript numbers

    A [number] is an IEEE 754 binary64 value, here the [spec_float] of the
    standard library at precision 53 and maximal exponent 1024.  All values
    the model builds come out of [binary_normalize] or [SFdiv], so finite
    values are in canonical form and equal numbers are equal terms. *)
Module JSNumber.

Definition number := spec_float.

Definition prec : Z := 53.
Definition emax : Z := 1024.

Definition NaN : number := S754_nan.
Definition POSITIVE_INFINITY : number := S754_infinity false.
Definition NEGATIVE_INFINITY : number := S754_infinity true.

(** The number denoted by an integer. *)
Definition ofZ (z : Z) : number := binary_normalize prec emax z 0 false.

(** [Number.isFinite] *)
Definition isFinite (x : number) : bool :=
  match x with
  | S754_zero _ | S754_finite _ _ _ => true
  | S754_infinity _ | S754_nan => false
  end.

Definition isNegZero (x : number) : bool :=
  match x with
  | S754_zero true => true
  | _ => false
  end.

(** [Math.min] and [Math.max] of two arguments: NaN when either argument is
    NaN, and [-0] is smaller than [+0]. *)
Definition Math_min (x y : number) : number :=
  match SFcompare x y with
  | None => NaN
  | Some Lt => x
  | Some Gt => y
  | Some Eq => if isNegZero x then x else y
  end.

Definition Math_max (x y : number) : number :=
  match SFcompare x y with
  | None => NaN
  | Some Gt => x
  | Some Lt => y
  | Some Eq => if isNegZero x then y else x
  end.

(** What [safeFetchData] hands to the parsers: [null], a missing column
    ([undefined]) or the text of a field. *)
Inductive JSValue :=
| JSNull
| JSUndefined
| JSString (s : string).

Definition ToString (v : JSValue) : string :=
  match v with
  | JSNull => "null"
  | JSUndefined => "undefined"
  | JSString s => s
  end.

Definition digitValue (c : ascii) : option Z :=
  let n := Z.of_N (N_of_ascii c) in
  if (48 <=? n)%Z && (n <=? 57)%Z then Some (n - 48)%Z else None.

Definition hexDigitValue (c : ascii) : option Z :=
  let n := Z.of_N (N_of_ascii c) in
  if (48 <=? n)%Z && (n <=? 57)%Z then Some (n - 48)%Z
  else if (97 <=? n)%Z && (n <=? 102)%Z then Some (n - 87)%Z
  else if (65 <=? n)%Z && (n <=? 70)%Z then Some (n - 55)%Z
  else None.

(** Reads the longest run of digits at the head of [s]: the value
    accumulated in radix [radix] from [acc], how many digits were read, and
    the rest of the string. *)
Fixpoint readDigits (digit : ascii -> option Z) (radix : Z)
    (s : string) (acc : Z) (count : nat) : Z * nat * string :=
  match s with
  | EmptyString => (acc, count, s)
  | String c s' =>
      match digit c with
      | Some d => readDigits digit radix s' (radix * acc + d)%Z (S count)
      | None => (acc, count, s)
      end
  end.

(** An optional sign: [true] for [-]. *)
Definition readSign (s : string) : bool * string :=
  match s with
  | String "-"%char s' => (true, s')
  | String "+"%char s' => (false, s')
  | _ => (false, s)
  end.

(** The binary64 value nearest to [m * 10^e] (ties to even), with the sign
    [neg]; the quotient by a power of ten is rounded once, by [SFdiv]. *)
Definition ofDecimal (neg : bool) (m : Z) (e : Z) : number :=
  match m with
  | Zpos p =>
      if (0 <=? e)%Z
      then binary_normalize prec emax ((if neg then Z.opp else id) (m * 10 ^ e))%Z 0 neg
      else SFdiv prec emax (S754_finite neg p 0)
                           (S754_finite false (Z.to_pos (10 ^ (- e))) 0)
  | _ => S754_zero neg
  end.

(** The exponent part [e], [e+], [e-] followed by at least one digit;
    anything else is not part of the numeric prefix and counts as [0]. *)
Definition readExponent (s : string) : Z :=
  match s with
  | String c r =>
      if Ascii.eqb c "e"%char || Ascii.eqb c "E"%char then
        let '(eneg, r1) := readSign r in
        let '(ev, ne, _) := readDigits digitValue 10 r1 0%Z 0%nat in
        match ne with
        | O => 0%Z
        | S _ => if eneg then (- ev)%Z else ev
        end
      else 0%Z
  | EmptyString => 0%Z
  end.

(** The global [parseFloat]: the argument is converted to a string, leading
    white space is dropped, and the longest prefix that is a decimal literal
    (or a signed [Infinity]) is converted; no such prefix gives NaN. *)
Definition parseFloat (v : JSValue) : number :=
  let s := JSString.trimStart (ToString v) in
  let '(neg, s1) := readSign s in
  if JSString.startsWith "Infinity" s1 then S754_infinity neg
  else
    let '(ip, ni, s2) := readDigits digitValue 10 s1 0%Z 0%nat in
    let '(m, nd, s3) :=
      match s2 with
      | String "."%char r => readDigits digitValue 10 r ip ni
      | _ => (ip, ni, s2)
      end in
    match nd with
    | O => NaN
    | S _ => ofDecimal neg m (readExponent s3 - Z.of_nat (nd - ni))
    end.

(** The global [parseInt] without a radix: leading white space and a sign
    are read, a [0x] or [0X] prefix selects radix 16, and the longest run of
    digits is converted; no digit gives NaN. *)
Definition parseInt (v : JSValue) : number :=
  let s := JSString.trimStart (ToString v) in
  let '(neg, s1) := readSign s in
  let hex := JSString.startsWith "0x" s1 || JSString.startsWith "0X" s1 in
  let '(n, nd, _) :=
    if hex then readDigits hexDigitValue 16 (JSString.skip 2 s1) 0%Z 0%nat
    else readDigits digitValue 10 s1 0%Z 0%nat in
  match nd with
  | O => NaN
  | S _ => ofDecimal neg n 0
  end.

End JSNumber.

(** ** JavaScript [Map]: a map that remembers insertion order

    [set] on a key that is present replaces the value and keeps the key's
    position; [keys] and [values] iterate in insertion order. *)
Module JSMap.
Section ops.
Context {K V : Type} `{EqDecision K}.

Fixpoint get (k : K) (m : list (K * V)) : option V :=
  match m with
  | [] => None
  | (k', v) :: m' => if decide (k = k') then Some v else get k m'
  end.

Fixpoint set (k : K) (v : V) (m : list (K * V)) : list (K * V) :=
  match m with
  | [] => [(k, v)]
  | (k', v') :: m' =>
      if decide (k = k') then (k, v) :: m' else (k', v') :: set k v m'
  end.

Definition keys (m : list (K * V)) : list K := m.*1.
Definition values (m : list (K * V)) : list V := m.*2.

(** [new Map(entries)] *)
Definition new (entries : list (K * V)) : list (K * V) :=
  foldl (fun m e => set e.1 e.2 m) [] entries.
End ops.
End JSMap.

Abbreviation Map K V := (list (K * V)) (only parsing).

(** ** The data model of [DataSource.ts] *)

Import JSNumber.

Definition years : list string :=
  ["2010"; "2011"; "2012"; "2013"; "2014"; "2015"; "2016"; "2017"].

Module Limit.
Record Limit := { min : number; max : number }.

Definition new : Limit :=
  {| min := POSITIVE_INFINITY; max := NEGATIVE_INFINITY |}.

Definition expandRange (newNumber : number) (this : Limit) : Limit :=
  if negb (isFinite newNumber) then this
  else {| min := Math_min newNumber (min this);
          max := Math_max newNumber (max this) |}.
End Limit.
Abbreviation Limit := Limit.Limit.

(** The identifiers of the five statistic sources, the string literals
    ["gdp"], ["ineq_comb"], ["ineq_edu"], ["ineq_inc"], ["ineq_life"]. *)
Module ResourceID.
Inductive ResourceID := gdp | ineq_comb | ineq_edu | ineq_inc | ineq_life.

#[global] Instance eq_dec : EqDecision ResourceID.
Proof. solve_decision. Defined.
End ResourceID.
Abbreviation ResourceID := ResourceID.ResourceID.

Module StatLimits.
Record StatLimits := {
  gdp : Limit;
  ineq_comb : Limit;
  ineq_edu : Limit;
  ineq_inc : Limit;
  ineq_life : Limit
}.

Definition new : StatLimits :=
  {| gdp := Limit.new; ineq_comb := Limit.new; ineq_edu := Limit.new;
     ineq_inc := Limit.new; ineq_life := Limit.new |}.

(** [limits[resourceID]] *)
Definition get (resourceID : ResourceID) (limits : StatLimits) : Limit :=
  match resourceID with
  | ResourceID.gdp => gdp limits
  | ResourceID.ineq_comb => ineq_comb limits
  | ResourceID.ineq_edu => ineq_edu limits
  | ResourceID.ineq_inc => ineq_inc limits
  | ResourceID.ineq_life => ineq_life limits
  end.

(** The effect on [limits] of a method of [limits[resourceID]] that turns
    that Limit into [f] of it. *)
Definition update (resourceID : ResourceID) (f : Limit -> Limit)
    (limits : StatLimits) : StatLimits :=
  match resourceID with
  | ResourceID.gdp =>
      {| gdp := f (gdp limits); ineq_comb := ineq_comb limits;
         ineq_edu := ineq_edu limits; ineq_inc := ineq_inc limits;
         ineq_life := ineq_life limits |}
  | ResourceID.ineq_comb =>
      {| gdp := gdp limits; ineq_comb := f (ineq_comb limits);
         ineq_edu := ineq_edu limits; ineq_inc := ineq_inc limits;
         ineq_life := ineq_life limits |}
  | ResourceID.ineq_edu =>
      {| gdp := gdp limits; ineq_comb := ineq_comb limits;
         ineq_edu := f (ineq_edu limits); ineq_inc := ineq_inc limits;
         ineq_life := ineq_life limits |}
  | ResourceID.ineq_inc =>
      {| gdp := gdp limits; ineq_comb := ineq_comb limits;
         ineq_edu := ineq_edu limits; ineq_inc := f (ineq_inc limits);
         ineq_life := ineq_life limits |}
  | ResourceID.ineq_life =>
      {| gdp := gdp limits; ineq_comb := ineq_comb limits;
         ineq_edu := ineq_edu limits; ineq_inc := ineq_inc limits;
         ineq_life := f (ineq_life limits) |}
  end.
End StatLimits.
Abbreviation StatLimits := StatLimits.StatLimits.

Module CountryStats.
Record Inequality := {
  combined : number;
  education : number;
  life_expectancy : number;
  income : number
}.

Record CountryStats := { gdp : number; inequality : Inequality }.
End CountryStats.
Abbreviation CountryStats := CountryStats.CountryStats.

(** A country object.  [readCountryInfoDB] allocates it with the fields
    [code], [name], [region]; [loadData] adds the property [stats] to the
    same object, so [stats] is optional here. *)
Module Country.
Record Country := {
  code : string;
  name : string;
  region : string;
  stats : option (Map string CountryStats)
}.

(** [Object.assign(countryInfo, {stats: s})]: writes the property into the
    target object. *)
Definition assign_stats (countryInfo : Country) (s : Map string CountryStats) : Country :=
  {| code := code countryInfo; name := name countryInfo;
     region := region countryInfo; stats := Some s |}.
End Country.
Abbreviation Country := Country.Country.

(** A record of the reference database [countries-unescaped.json]. *)
Module Json.
Record Name := { common : string; official : string }.

Record country := {
  cca3 : string;
  name : Name;
  (** the entries of [name.native] in the order [for ... in] visits them *)
  native : list (string * Name);
  altSpellings : list string;
  region : string
}.
End Json.

(** A parsed row of a delimited source: the column [Country] (the field
    [Country_]) and the other columns by header; [row[year]] is [undefined] for
    a column the row does not have. *)
Record DSVRowString := { Country_ : string; columns : gmap string string }.

Definition row_get (row : DSVRowString) (column : string) : JSValue :=
  match columns row !! column with
  | Some s => JSString s
  | None => JSUndefined
  end.

(** ** A small state monad for the code that mutates [StatLimits] *)
Definition State (S A : Type) : Type := S -> A * S.

Definition ret {S A : Type} (a : A) : State S A := fun s => (a, s).

Definition bind {S A B : Type} (c : State S A) (k : A -> State S B) : State S B :=
  fun s => let '(a, s') := c s in k a s'.

Definition modify {S : Type} (f : S -> S) : State S unit := fun s => (tt, f s).

Notation "'let*' x ':=' c 'in' k" := (bind c (fun x => k))
  (at level 10, x name, c at level 200, k at level 200).

(** [for (const x of l) body], the body run for its effect on the state and
    its results collected in order. *)
Fixpoint forEach {S A B : Type} (l : list A) (body : A -> State S B) : State S (list B) :=
  match l with
  | [] => ret []
  | x :: l' => let* y := body x in let* ys := forEach l' body in ret (y :: ys)
  end.

(** The outcome of code that may throw. *)
Inductive Result (A : Type) :=
| Ok (value : A)
| Throw (message : string).
Arguments Ok {A} value.
Arguments Throw {A} message.

(** ** [class DataSource] *)

(** The private static [forcedCountryNames]. *)
Definition forcedCountryNames : Map string (list string) :=
  JSMap.new
    [("BRN", ["Brunei Darussalam"]);
     ("PSE", ["Palestine, State of"]);
     ("STP", ["Sao Tome and Principe"]);
     ("MKD", ["The former Yugoslav Republic of Macedonia"]);
     ("HKG", ["Hong Kong, China (SAR)"]);
     ("COG", ["Congo (Democratic Republic of the)"]);
     ("COD", ["Congo"])].

(** [csvLoader]: the rows of one source, keyed by the trimmed [Country]. *)
Definition csvLoader (rows : list DSVRowString) : Map string DSVRowString :=
  JSMap.new ((fun row => (JSString.trim (Country_ row), row)) <$> rows).

Section readCountryStats.
(** [data]: the loaded sources by resource identifier. *)
Variable data : ResourceID -> Map string DSVRowString.
Variable countryName : string.

(** The closure [safeFetchData] of [readCountryStats]. *)
Definition safeFetchData (resourceID : ResourceID) (year : string)
    : State StatLimits JSValue :=
  match JSMap.get countryName (data resourceID) with
  | None => ret JSNull
  | Some row =>
      let* _ := modify (StatLimits.update resourceID
                          (Limit.expandRange (parseFloat (row_get row year)))) in
      ret (row_get row year)
  end.

(** One turn of the loop over [years]: the entry set for [year]. *)
Definition yearStats (year : string) : State StatLimits (string * CountryStats) :=
  let* g := safeFetchData ResourceID.gdp year in
  let* c := safeFetchData ResourceID.ineq_comb year in
  let* e := safeFetchData ResourceID.ineq_edu year in
  let* l := safeFetchData ResourceID.ineq_inc year in
  let* i := safeFetchData ResourceID.ineq_life year in
  ret (year,
       {| CountryStats.gdp := parseInt g;
          CountryStats.inequality :=
            {| CountryStats.combined := parseFloat c;
               CountryStats.education := parseFloat e;
               CountryStats.life_expectancy := parseFloat l;
               CountryStats.income := parseFloat i |} |}).

(** The loop sets one entry per year into the fresh [countryStats]: the map
    built from the entries in the order of [years]. *)
Definition readCountryStats : State StatLimits (Map string CountryStats) :=
  let* entries := forEach years yearStats in
  ret (JSMap.new entries).
End readCountryStats.

(** The order variation of one name: ["Republic of xyz"] gives
    ["xyz (Republic of)"]; a name without [" of "] gives none. *)
Definition orderVariation (country : string) : option string :=
  let marker := " of " in
  match JSString.indexOf marker country with
  | None => None
  | Some ofPos =>
      let prefix :=
        JSString.trim
          (JSString.substring country 0 (Some (ofPos + String.length marker)%nat)) in
      let countryName :=
        JSString.trim
          (JSString.substring country (ofPos + String.length marker)%nat None) in
      Some (countryName +:+ " (" +:+ prefix +:+ ")")
  end.

(** The common and official names, in the root and in every native
    language: [alternateNames] before the order variations are added. *)
Definition baseNames (country : Json.country) : list string :=
  [Json.common (Json.name country); Json.official (Json.name country)]
  ++ (Json.native country ≫=
        fun lang => [Json.common lang.2; Json.official lang.2]).

Definition forcedNames (country : Json.country) : list string :=
  match JSMap.get (Json.cca3 country) forcedCountryNames with
  | None => []
  | Some names => names
  end.

(** [alternateNames] of one record when the loop body reaches
    [alternateNames.forEach(name => nameDB.set(...))]. *)
Definition alternateNames (country : Json.country) : list string :=
  baseNames country
  ++ omap orderVariation (baseNames country)
  ++ Json.altSpellings country
  ++ forcedNames country.

Record CountryInfoDatabase := {
  nameToCode : gmap string string;
  (** Every code is mapped to an object of its own, so an object is identified
      with its key and this map is also the store of the country objects. *)
  infoFromCode : gmap string Country
}.

Definition readCountryInfoDB (srcJson : list Json.country) : CountryInfoDatabase :=
  {| nameToCode :=
       foldl (fun nameDB country =>
                foldl (fun nameDB name => <[name := Json.cca3 country]> nameDB)
                      nameDB (alternateNames country))
             ∅ srcJson;
     infoFromCode :=
       foldl (fun info country =>
                <[Json.cca3 country :=
                    {| Country.code := Json.cca3 country;
                       Country.name := Json.common (Json.name country);
                       Country.region := Json.region country;
                       Country.stats := None |}]> info)
             ∅ srcJson |}.

Arguments readCountryInfoDB : simpl never.
Arguments alternateNames : simpl never.

(** What [loadData] fetches: the reference database and the rows of each
    delimited source. *)
Record Resources := {
  countries_json : list Json.country;
  csv : ResourceID -> list DSVRowString
}.

(** A [DataSource] object, with the store its [data] points into: a value of
    [data] is a reference to a country object, written as the object's key in
    [store]. *)
Record DataSource := {
  data : Map string string;
  dataLimits : StatLimits;
  store : gmap string Country
}.

(** The loop of [loadData] over the keys of the gdp source; [sources] is the
    local [data] of [loadData], the loaded sources by identifier. *)
Fixpoint join (nameToCode : gmap string string)
    (sources : ResourceID -> Map string DSVRowString)
    (names : list string) (dataSource : DataSource) : Result DataSource :=
  match names with
  | [] => Ok dataSource
  | countryCSVName :: names' =>
      let countryCSVName := JSString.trim countryCSVName in
      match nameToCode !! countryCSVName with
      | None => Throw ("No country info for " +:+ countryCSVName)
      | Some code =>
          match store dataSource !! code with
          | None => Throw ("No country info for " +:+ countryCSVName)
          | Some countryInfo =>
              let '(stats, limits) :=
                readCountryStats sources countryCSVName (dataLimits dataSource) in
              join nameToCode sources names'
                {| data := JSMap.set (Country.name countryInfo) code (data dataSource);
                   dataLimits := limits;
                   store := <[code := Country.assign_stats countryInfo stats]>
                              (store dataSource) |}
          end
      end
  end.

Definition loadData (resources : Resources) : Result DataSource :=
  let countries := readCountryInfoDB (countries_json resources) in
  let sources := fun resourceID => csvLoader (csv resources resourceID) in
  join (nameToCode countries) sources (JSMap.keys (sources ResourceID.gdp))
    {| data := []; dataLimits := StatLimits.new;
       store := infoFromCode countries |}.

Definition getCountry (this : DataSource) (name : string) : option Country :=
  JSMap.get name (data this) ≫= fun ref => store this !! ref.

Definition getCountries (this : DataSource) : list Country :=
  omap (fun ref => store this !! ref) (JSMap.values (data this)).

Definition getStatLimits (this : DataSource) : StatLimits := dataLimits this.

(** ** [class LineChart]: the computations that do not touch the document

    [ICountry] and [ICountryStats] are the country and its yearly statistics
    as [DataSource] publishes them. *)
Module LineChart.

Record IYearStats := { year : string; stats : CountryStats }.

(** The margins [{ top: 20, right: 50, bottom: 30, left: 40 }]. *)
Definition margin_top : number := ofZ 20.
Definition margin_right : number := ofZ 50.
Definition margin_bottom : number := ofZ 30.
Definition margin_left : number := ofZ 40.

(** [width] and [height] as the constructor sets them from the attributes
    [data-chart-height] and [data-chart-width] of the container, [None] for
    an attribute that is [null]. *)
Definition size (heightAttr widthAttr : option string) : number * number :=
  let '(heightAttr, widthAttr) :=
    match heightAttr, widthAttr with
    | Some h, Some w => (h, w)
    | _, _ => ("500", "960")
    end in
  (SFsub prec emax (SFsub prec emax (parseInt (JSString widthAttr)) margin_left)
         margin_right,
   SFsub prec emax (SFsub prec emax (parseInt (JSString heightAttr)) margin_top)
         margin_bottom).

(** [a[i]] on an array of strings. *)
Definition at_index (a : list string) (i : nat) : JSValue :=
  match a !! i with
  | Some s => JSString s
  | None => JSUndefined
  end.

(** The domain of [xScale]. *)
Definition xDomain : number * number :=
  (SFsub prec emax (parseInt (at_index years 0)) (ofZ 1),
   SFadd prec emax (parseInt (at_index years (length years - 1))) (ofZ 1)).

Definition xValue (point : IYearStats) : number := parseInt (JSString (year point)).
Definition yValue (point : IYearStats) : number :=
  CountryStats.combined (CountryStats.inequality (stats point)).
Definition y2Value (point : IYearStats) : number := CountryStats.gdp (stats point).

(** [setCountry]: the new [this.data]; iterating [country.stats] throws when
    the country has no [stats], which is [None]. *)
Definition setCountry (country : Country) : option (list IYearStats) :=
  match Country.stats country with
  | None => None
  | Some entries =>
      Some (foldl (fun data entry =>
                     if isFinite (CountryStats.gdp entry.2)
                        && isFinite (CountryStats.combined
                                       (CountryStats.inequality entry.2))
                     then data ++ [{| year := entry.1; stats := entry.2 |}]
                     else data)
                  [] entries)
  end.

End LineChart.

(** ** [class ScatterPlot]: the value ranges of [create] and the year of
    [animateScatterPlot]

    Of a [DataTuple] the class reads [country], [gini] and [gdp].  [years]
    is imported from a module that is not part of these sources, and the field
    [data] is filled by a function of that module: both are parameters of the
    model. *)
Module ScatterPlot.

Record DataTuple := { country : string; gini : number; gdp : number }.

Definition xValue (d : DataTuple) : number := gini d.
Definition yValue (d : DataTuple) : number := gdp d.

Record Ranges := { xMax : number; xMin : number; yMax : number; yMin : number }.

(** The four variables of [create] after its loop over [this.data]. *)
Definition ranges (data : Map string (list DataTuple)) : Ranges :=
  foldl (fun r year =>
           foldl (fun r country =>
                    if negb (isFinite (xValue country)) || negb (isFinite (yValue country))
                    then r
                    else {| xMax := Math_max (xMax r) (xValue country);
                            xMin := Math_min (xMin r) (xValue country);
                            yMax := Math_max (yMax r) (yValue country);
                            yMin := Math_min (yMin r) (yValue country) |})
                 r year)
        {| xMax := NEGATIVE_INFINITY; xMin := POSITIVE_INFINITY;
           yMax := NEGATIVE_INFINITY; yMin := POSITIVE_INFINITY |}
        (JSMap.values data).

(** [a.indexOf(x)], [None] for [-1]; [undefined] is in no array of
    strings. *)
Fixpoint indexOf (a : list string) (x : string) : option nat :=
  match a with
  | [] => None
  | y :: a' => if decide (x = y) then Some 0%nat else S <$> indexOf a' x
  end.

(** [years[(years.indexOf(year) + 1) % years.length]], [None] for
    [undefined]. *)
Definition following (years : list string) (year : option string) : option string :=
  let index :=
    match year ≫= indexOf years with
    | None => 0%nat
    | Some i => (i + 1)%nat
    end in
  years !! (index mod length years)%nat.

(** [animateScatterPlot(year?)] on the fields [data] and [nextYear]: what the
    call draws and the field [nextYear] after the call.

    The call first stores a given [year] in [nextYear] and then passes
    [this.data.get(this.nextYear)] to [updateScatterPlot].  For a year without
    entry in [data] that is [undefined], which [updateScatterPlot] cannot bind
    to the dots: it throws, and the call ends there, outcome [None], before
    [nextYear] is advanced.  Otherwise the tuples of the year are drawn and
    [nextYear] becomes the following year. *)
Definition animateScatterPlot (years : list string)
    (data : Map string (list DataTuple)) (year : option string)
    (nextYear : option string) : option (list DataTuple) * option string :=
  let nextYear := match year with Some _ => year | None => nextYear end in
  match nextYear ≫= fun key => JSMap.get key data with
  | None => (None, nextYear)
  | Some tuples => (Some tuples, following years nextYear)
  end.

(** [n] calls without argument, one after the other, whether or not an
    earlier one threw: the outcome of each call and the field [nextYear] after
    the last. *)
Fixpoint animation (years : list string) (data : Map string (list DataTuple))
    (n : nat) (nextYear : option string)
    : list (option (list DataTuple)) * option string :=
  match n with
  | O => ([], nextYear)
  | S n' =>
      let '(drawn, nextYear) := animateScatterPlot years data None nextYear in
      let '(rest, final) := animation years data n' nextYear in
      (drawn :: rest, final)
  end.

End ScatterPlot.

(** * Properties *)

(** ** Strings *)
Module JSStringFacts.
Import JSString.

Lemma length_app (a b : string) :
  String.length (a +:+ b) = (String.length a + String.length b)%nat.
Proof. induction a as [|c a IH]; simpl; [reflexivity | now rewrite IH]. Qed.

Lemma upto_app (a b : string) : upto (String.length a) (a +:+ b) = a.
Proof. induction a as [|c a IH]; simpl; [now destruct b | now rewrite IH]. Qed.

Lemma skip_app (a b : string) : skip (String.length a) (a +:+ b) = b.
Proof. induction a as [|c a IH]; simpl; [reflexivity | exact IH]. Qed.

Lemma trimStart_fixed (s : string) : trimStart (trimStart s) = trimStart s.
Proof.
  induction s as [|c s IH]; simpl; [reflexivity |].
  destruct (isWhiteSpace c) eqn:Hc; [exact IH |].
  simpl. now rewrite Hc.
Qed.

Lemma trimEnd_fixed (s : string) : trimEnd (trimEnd s) = trimEnd s.
Proof.
  induction s as [|c s IH]; simpl; [reflexivity |].
  destruct (trimEnd s) as [|d t] eqn:Ht.
  - destruct (isWhiteSpace c) eqn:Hc; simpl; [reflexivity | now rewrite Hc].
  - simpl in *. now rewrite IH.
Qed.

(** Dropping leading white space does not bring trailing white space back. *)
Lemma trimEnd_trimStart (s : string) :
  trimEnd s = s -> trimEnd (trimStart s) = trimStart s.
Proof.
  induction s as [|c s IH]; simpl; [reflexivity |].
  intros Hfix.
  destruct (isWhiteSpace c) eqn:Hc.
  - apply IH. destruct (trimEnd s) as [|d t]; [discriminate | congruence].
  - simpl. rewrite Hc. exact Hfix.
Qed.

Lemma trim_idempotent (s : string) : trim (trim s) = trim s.
Proof.
  unfold trim.
  rewrite (trimEnd_trimStart (trimEnd s)) by apply trimEnd_fixed.
  apply trimStart_fixed.
Qed.

(** [indexOf] finds an occurrence: the string splits around it. *)
Lemma startsWith_split (p s : string) :
  startsWith p s = true -> s = p +:+ skip (String.length p) s.
Proof.
  revert s; induction p as [|a p IH]; intros [|b s]; simpl; try easy.
  destruct (Ascii.eqb a b) eqn:Hab; [|discriminate].
  apply Ascii.eqb_eq in Hab as ->. intros H.
  rewrite (IH s H) at 1. reflexivity.
Qed.

Lemma indexOf_split (marker s : string) (pos : nat) :
  indexOf marker s = Some pos ->
  s = upto pos s +:+ marker +:+ skip (pos + String.length marker) s.
Proof.
  revert pos; induction s as [|c s IH]; intros pos; simpl.
  - destruct (startsWith marker "") eqn:Hm; [|discriminate].
    intros [= <-]. simpl. now apply startsWith_split in Hm.
  - destruct (startsWith marker (String c s)) eqn:Hm.
    + intros [= <-]. simpl. now apply startsWith_split in Hm.
    + destruct (indexOf marker s) as [q|]; [|discriminate].
      intros [= <-]. simpl. rewrite (IH q eq_refl) at 1. reflexivity.
Qed.

(** ... and it is the first one: no earlier position starts the marker. *)
Lemma indexOf_first (marker s : string) (pos q : nat) :
  indexOf marker s = Some pos -> (q < pos)%nat ->
  startsWith marker (skip q s) = false.
Proof.
  revert pos q; induction s as [|c s IH]; intros pos q; simpl.
  - destruct (startsWith marker ""); [intros [= <-]; lia | discriminate].
  - destruct (startsWith marker (String c s)) eqn:Hm; [intros [= <-]; lia |].
    destruct (indexOf marker s) as [p|]; [|discriminate].
    intros [= <-] Hq. destruct q as [|q]; [exact Hm |].
    simpl. apply (IH p); [reflexivity | lia].
Qed.
Lemma startsWith_upto (p s : string) :
  startsWith p s = true -> upto (String.length p) s = p.
Proof.
  revert s; induction p as [|a p IH]; intros [|b s]; simpl; try easy.
  destruct (Ascii.eqb a b) eqn:Hab; [|discriminate].
  apply Ascii.eqb_eq in Hab as ->. intros H. now rewrite IH.
Qed.

Lemma indexOf_upto (marker s : string) (pos : nat) :
  indexOf marker s = Some pos ->
  upto (pos + String.length marker) s = upto pos s +:+ marker.
Proof.
  revert pos; induction s as [|c s IH]; intros pos; simpl.
  - destruct (startsWith marker "") eqn:Hm; [|discriminate].
    intros [= <-]. simpl. now apply startsWith_upto in Hm.
  - destruct (startsWith marker (String c s)) eqn:Hm.
    + intros [= <-]. simpl. now apply startsWith_upto in Hm.
    + destruct (indexOf marker s) as [q|]; [|discriminate].
      intros [= <-]. simpl. now rewrite (IH q eq_refl).
Qed.
End JSStringFacts.

(** ** Numbers *)
Module JSNumberFacts.

Lemma SFcompare_refl (x : number) : x <> NaN -> SFcompare x x = Some Eq.
Proof.
  destruct x as [s|s| |s m e]; simpl; try easy.
  - now destruct s.
  - intros _. rewrite Z.compare_refl.
    change (Pos.compare_cont Eq m m) with (Pos.compare m m).
    rewrite Pos.compare_refl. now destruct s.
Qed.

Lemma SFcompare_antisym (x y : number) :
  SFcompare y x = CompOpp <$> SFcompare x y.
Proof.
  destruct x as [s1|s1| |s1 m1 e1], y as [s2|s2| |s2 m2 e2]; simpl;
    try reflexivity; try (now destruct s1); try (now destruct s2);
    try (now destruct s1, s2).
  change (Pos.compare_cont Eq m1 m2) with (Pos.compare m1 m2).
  change (Pos.compare_cont Eq m2 m1) with (Pos.compare m2 m1).
  rewrite (Z.compare_antisym e1 e2), (Pos.compare_antisym m1 m2).
  destruct s1, s2; simpl; try reflexivity;
    destruct (e1 ?= e2)%Z; simpl; try reflexivity;
    now destruct (m1 ?= m2)%positive.
Qed.

(** Numbers that compare equal are the same term, signed zeros apart. *)
Lemma SFcompare_Eq (x y : number) :
  SFcompare x y = Some Eq ->
  x = y \/ exists s1 s2, x = S754_zero s1 /\ y = S754_zero s2.
Proof.
  destruct x as [s1|s1| |s1 m1 e1], y as [s2|s2| |s2 m2 e2]; simpl;
    try discriminate; try (now destruct s1); try (now destruct s2).
  - right. eauto.
  - destruct s1, s2; try discriminate; now left.
  - change (Pos.compare_cont Eq m1 m2) with (Pos.compare m1 m2).
    destruct s1, s2; try discriminate;
      destruct (e1 ?= e2)%Z eqn:He; try discriminate;
      destruct (m1 ?= m2)%positive eqn:Hm; try discriminate;
      apply Z.compare_eq in He; apply Pos.compare_eq in Hm; subst; now left.
Qed.

Lemma Math_min_comm (x y : number) : Math_min x y = Math_min y x.
Proof.
  unfold Math_min. rewrite (SFcompare_antisym x y).
  destruct (SFcompare x y) as [[]|] eqn:Hc; simpl; try reflexivity.
  apply SFcompare_Eq in Hc as [->|(s1 & s2 & -> & ->)]; [reflexivity |].
  now destruct s1, s2.
Qed.

Lemma Math_max_comm (x y : number) : Math_max x y = Math_max y x.
Proof.
  unfold Math_max. rewrite (SFcompare_antisym x y).
  destruct (SFcompare x y) as [[]|] eqn:Hc; simpl; try reflexivity.
  apply SFcompare_Eq in Hc as [->|(s1 & s2 & -> & ->)]; [reflexivity |].
  now destruct s1, s2.
Qed.

Lemma Math_min_absorb (x y : number) : Math_min x (Math_min x y) = Math_min x y.
Proof.
  destruct (SFcompare x y) as [[]|] eqn:Hc.
  - destruct (isNegZero x) eqn:Hx.
    + assert (Math_min x y = x) as -> by (unfold Math_min; now rewrite Hc, Hx).
      unfold Math_min. rewrite SFcompare_refl; [now rewrite Hx |].
      intros ->. discriminate.
    + assert (Math_min x y = y) as -> by (unfold Math_min; now rewrite Hc, Hx).
      unfold Math_min. now rewrite Hc, Hx.
  - assert (Math_min x y = x) as -> by (unfold Math_min; now rewrite Hc).
    unfold Math_min. rewrite SFcompare_refl; [now destruct (isNegZero x) |].
    intros ->. discriminate.
  - assert (Math_min x y = y) as -> by (unfold Math_min; now rewrite Hc).
    unfold Math_min. now rewrite Hc.
  - assert (Math_min x y = NaN) as -> by (unfold Math_min; now rewrite Hc).
    now destruct x.
Qed.

Lemma Math_max_absorb (x y : number) : Math_max x (Math_max x y) = Math_max x y.
Proof.
  destruct (SFcompare x y) as [[]|] eqn:Hc.
  - destruct (isNegZero x) eqn:Hx.
    + assert (Math_max x y = y) as -> by (unfold Math_max; now rewrite Hc, Hx).
      unfold Math_max. now rewrite Hc, Hx.
    + assert (Math_max x y = x) as -> by (unfold Math_max; now rewrite Hc, Hx).
      unfold Math_max. rewrite SFcompare_refl; [now rewrite Hx |].
      intros ->. discriminate.
  - assert (Math_max x y = y) as -> by (unfold Math_max; now rewrite Hc).
    unfold Math_max. now rewrite Hc.
  - assert (Math_max x y = x) as -> by (unfold Math_max; now rewrite Hc).
    unfold Math_max. rewrite SFcompare_refl; [now destruct (isNegZero x) |].
    intros ->. discriminate.
  - assert (Math_max x y = NaN) as -> by (unfold Math_max; now rewrite Hc).
    now destruct x.
Qed.

Lemma isFinite_false (x : number) :
  isFinite x = false <->
  x = NaN \/ x = POSITIVE_INFINITY \/ x = NEGATIVE_INFINITY.
Proof.
  unfold NaN, POSITIVE_INFINITY, NEGATIVE_INFINITY.
  destruct x as [s|[]| |s m e]; simpl; split; intros H; auto;
    try discriminate; now destruct H as [H|[H|H]].
Qed.
End JSNumberFacts.

(** ** Maps *)
Module JSMapFacts.
Section facts.
Context {K V : Type} `{EqDecision K}.
Implicit Types (m : list (K * V)) (k : K) (v : V).

Lemma get_set k' k v m :
  JSMap.get k' (JSMap.set k v m) = if decide (k' = k) then Some v else JSMap.get k' m.
Proof.
  induction m as [|[k0 v0] m IH]; simpl.
  - now destruct (decide (k' = k)).
  - destruct (decide (k = k0)) as [->|Hk]; simpl.
    + now destruct (decide (k' = k0)).
    + destruct (decide (k' = k0)) as [->|Hk'].
      * destruct (decide (k0 = k)); congruence.
      * exact IH.
Qed.

Lemma get_None k m : JSMap.get k m = None <-> k ∉ JSMap.keys m.
Proof.
  unfold JSMap.keys. induction m as [|[k0 v0] m IH]; simpl.
  - split; [intros _; apply not_elem_of_nil | reflexivity].
  - rewrite not_elem_of_cons.
    destruct (decide (k = k0)) as [->|Hk]; [split; [discriminate | tauto] |].
    rewrite IH. tauto.
Qed.

Lemma get_Some_elem k v m : JSMap.get k m = Some v -> (k, v) ∈ m.
Proof.
  induction m as [|[k0 v0] m IH]; simpl; [discriminate |].
  destruct (decide (k = k0)) as [->|Hk].
  - intros [= ->]. apply list_elem_of_here.
  - intros H'. apply list_elem_of_further. now apply IH.
Qed.

Lemma elem_get_Some k v m : NoDup (JSMap.keys m) -> (k, v) ∈ m -> JSMap.get k m = Some v.
Proof.
  unfold JSMap.keys.
  induction m as [|[k0 v0] m IH]; simpl; [intros _ H'; inversion H' |].
  rewrite NoDup_cons. intros [Hk0 Hm]. rewrite elem_of_cons.
  intros [[= -> ->]|Hin].
  - now destruct (decide (k0 = k0)).
  - destruct (decide (k = k0)) as [->|Hk]; [|now apply IH].
    exfalso. apply Hk0. change k0 with (k0, v).1.
    now apply list_elem_of_fmap_2.
Qed.


Lemma elem_of_keys_set k' k v m :
  k' ∈ JSMap.keys (JSMap.set k v m) <-> k' = k \/ k' ∈ JSMap.keys m.
Proof.
  unfold JSMap.keys. induction m as [|[k0 v0] m IH]; simpl.
  - rewrite list_elem_of_singleton. split; [tauto | intros [?|Hin]; [assumption | inversion Hin]].
  - destruct (decide (k = k0)) as [->|Hk]; simpl.
    + rewrite elem_of_cons. tauto.
    + rewrite !elem_of_cons, IH. tauto.
Qed.

Lemma NoDup_keys_set k v m :
  NoDup (JSMap.keys m) -> NoDup (JSMap.keys (JSMap.set k v m)).
Proof.
  unfold JSMap.keys. induction m as [|[k0 v0] m IH]; simpl.
  - intros _. apply NoDup_singleton.
  - rewrite NoDup_cons. intros [Hk0 Hm].
    destruct (decide (k = k0)) as [->|Hk]; simpl; apply NoDup_cons.
    + tauto.
    + split; [|now apply IH].
      intros [?|?]%elem_of_keys_set; [congruence | contradiction].
Qed.

Lemma keys_foldl_set (entries : list (K * V)) m k :
  k ∈ JSMap.keys (foldl (fun m e => JSMap.set e.1 e.2 m) m entries)
  <-> k ∈ JSMap.keys m \/ k ∈ entries.*1.
Proof.
  revert m; induction entries as [|[k0 v0] es IH]; intros m; simpl.
  - split; [tauto | intros [?|Hin]; [assumption | inversion Hin]].
  - rewrite IH, elem_of_keys_set, elem_of_cons. tauto.
Qed.

Lemma NoDup_foldl_set (entries : list (K * V)) m :
  NoDup (JSMap.keys m) ->
  NoDup (JSMap.keys (foldl (fun m e => JSMap.set e.1 e.2 m) m entries)).
Proof.
  revert m; induction entries as [|[k0 v0] es IH]; intros m Hm; simpl;
    [assumption | now apply IH, NoDup_keys_set].
Qed.

Lemma keys_new (entries : list (K * V)) k :
  k ∈ JSMap.keys (JSMap.new entries) <-> k ∈ entries.*1.
Proof.
  unfold JSMap.new. rewrite keys_foldl_set. unfold JSMap.keys. simpl.
  split; [intros [Hin|?]; [inversion Hin | assumption] | tauto].
Qed.

Lemma NoDup_keys_new (entries : list (K * V)) : NoDup (JSMap.keys (JSMap.new entries)).
Proof. apply NoDup_foldl_set, NoDup_nil_2. Qed.

End facts.
End JSMapFacts.

(** ** Inserting a list of entries into a [gmap], the later entry winning *)
Section insert_all.
Context {V : Type}.
Implicit Types (m : gmap string V) (l : list (string * V)).

Definition insert_all l m : gmap string V :=
  foldl (fun m e => <[e.1 := e.2]> m) m l.

Lemma insert_all_app l1 l2 m : insert_all (l1 ++ l2) m = insert_all l2 (insert_all l1 m).
Proof. apply foldl_app. Qed.

Lemma insert_all_keep l m k v :
  m !! k = Some v -> (forall v', (k, v') ∈ l -> v' = v) -> insert_all l m !! k = Some v.
Proof.
  revert m; induction l as [|[k0 v0] l IH]; intros m Hm Hl; simpl; [assumption |].
  apply IH.
  - destruct (decide (k0 = k)) as [->|Hk].
    + rewrite lookup_insert_eq. f_equal. apply Hl, list_elem_of_here.
    + now rewrite lookup_insert_ne.
  - intros v' Hin. now apply Hl, list_elem_of_further.
Qed.

Lemma insert_all_last l1 l2 m k v :
  (forall v', (k, v') ∈ l2 -> v' = v) -> insert_all (l1 ++ (k, v) :: l2) m !! k = Some v.
Proof.
  intros Hl. rewrite insert_all_app. simpl.
  apply insert_all_keep; [apply lookup_insert_eq | assumption].
Qed.

Lemma insert_all_Some l m k v :
  insert_all l m !! k = Some v -> (k, v) ∈ l \/ m !! k = Some v.
Proof.
  revert m; induction l as [|[k0 v0] l IH]; intros m; simpl; [tauto |].
  intros [Hin|Hm]%IH; [left; now apply list_elem_of_further |].
  destruct (decide (k0 = k)) as [->|Hk].
  - rewrite lookup_insert_eq in Hm. injection Hm as ->. left. apply list_elem_of_here.
  - rewrite lookup_insert_ne in Hm by assumption. now right.
Qed.

Lemma insert_all_is_Some l m k :
  is_Some (insert_all l m !! k) <-> k ∈ l.*1 \/ is_Some (m !! k).
Proof.
  revert m; induction l as [|[k0 v0] l IH]; intros m; simpl.
  - split; [tauto | intros [Hin|?]; [inversion Hin | assumption]].
  - rewrite IH, elem_of_cons. destruct (decide (k0 = k)) as [->|Hk].
    + rewrite lookup_insert_eq. split; [tauto | eauto].
    + rewrite lookup_insert_ne by assumption. split; [tauto |].
      intros [[?|?]|?]; [congruence | tauto | tauto].
Qed.
End insert_all.

(** ** The name resolution index and the country info registry *)

(** The entries [readCountryInfoDB] sets in [nameDB], in the order it sets
    them. *)
Definition nameEntries (srcJson : list Json.country) : list (string * string) :=
  srcJson ≫= fun country => (fun name => (name, Json.cca3 country)) <$> alternateNames country.

Definition infoOf (country : Json.country) : Country :=
  {| Country.code := Json.cca3 country;
     Country.name := Json.common (Json.name country);
     Country.region := Json.region country;
     Country.stats := None |}.

Lemma foldl_insert_names {R : Type} (names : R -> list string) (code : R -> string)
    (records : list R) (m : gmap string string) :
  foldl (fun nameDB r => foldl (fun nameDB name => <[name := code r]> nameDB) nameDB (names r))
        m records
  = insert_all (records ≫= fun r => (fun name => (name, code r)) <$> names r) m.
Proof.
  revert m; induction records as [|r records IH]; intros m; simpl; [reflexivity |].
  rewrite IH, insert_all_app. f_equal.
  generalize (names r) as l. clear.
  intros l; revert m; induction l as [|n l IH]; intros m; simpl; [reflexivity | apply IH].
Qed.

Lemma nameToCode_entries (srcJson : list Json.country) :
  nameToCode (readCountryInfoDB srcJson) = insert_all (nameEntries srcJson) ∅.
Proof. apply foldl_insert_names. Qed.

Lemma infoFromCode_entries (srcJson : list Json.country) :
  infoFromCode (readCountryInfoDB srcJson)
  = insert_all ((fun country => (Json.cca3 country, infoOf country)) <$> srcJson) ∅.
Proof.
  unfold readCountryInfoDB; simpl. generalize (∅ : gmap string Country).
  induction srcJson as [|r db IH]; intros m; simpl; [reflexivity | apply IH].
Qed.

Lemma elem_of_nameEntries (srcJson : list Json.country) name code :
  (name, code) ∈ nameEntries srcJson
  <-> exists country, country ∈ srcJson /\ name ∈ alternateNames country
                      /\ Json.cca3 country = code.
Proof.
  unfold nameEntries. rewrite list_elem_of_bind. split.
  - intros (r & Hin & Hr). apply list_elem_of_fmap in Hin as (n & [= -> ->] & Hn). eauto.
  - intros (r & Hr & Hn & <-). exists r. split; [|assumption].
    apply list_elem_of_fmap. eauto.
Qed.

(** A name among the [alternateNames] of a record resolves to that record's
    code unless a later record with another code has the name too. *)
Lemma nameToCode_last (before after : list Json.country) (country : Json.country) name :
  name ∈ alternateNames country ->
  (forall later, later ∈ after -> name ∈ alternateNames later ->
                 Json.cca3 later = Json.cca3 country) ->
  nameToCode (readCountryInfoDB (before ++ country :: after)) !! name
  = Some (Json.cca3 country).
Proof.
  intros Hname Hafter. rewrite nameToCode_entries.
  apply list_elem_of_split in Hname as (n1 & n2 & Hsplit).
  unfold nameEntries. rewrite bind_app, bind_cons, Hsplit, fmap_app, fmap_cons.
  rewrite <- !app_assoc, <- app_comm_cons, app_assoc.
  apply insert_all_last.
  intros code [Hin|Hin]%elem_of_app.
  - now apply list_elem_of_fmap in Hin as (n & [= _ ->] & _).
  - apply (elem_of_nameEntries after) in Hin as (later & Hl & Hn & <-). now apply Hafter.
Qed.

Lemma nameToCode_Some (srcJson : list Json.country) name code :
  nameToCode (readCountryInfoDB srcJson) !! name = Some code ->
  exists country, country ∈ srcJson /\ name ∈ alternateNames country
                  /\ Json.cca3 country = code.
Proof.
  rewrite nameToCode_entries. intros [Hin|Hm]%insert_all_Some.
  - now apply elem_of_nameEntries.
  - now rewrite lookup_empty in Hm.
Qed.

Lemma nameToCode_None (srcJson : list Json.country) name :
  nameToCode (readCountryInfoDB srcJson) !! name = None
  <-> forall country, country ∈ srcJson -> name ∉ alternateNames country.
Proof.
  rewrite nameToCode_entries, eq_None_not_Some, insert_all_is_Some. split.
  - intros Hno r Hr Hn. apply Hno. left.
    apply list_elem_of_fmap. exists (name, Json.cca3 r). split; [reflexivity |].
    apply elem_of_nameEntries. eauto.
  - intros Hno [Hin|[? Hm]]; [|now rewrite lookup_empty in Hm].
    apply list_elem_of_fmap in Hin as ([n c] & -> & Hin).
    apply elem_of_nameEntries in Hin as (r & Hr & Hn & _). exact (Hno r Hr Hn).
Qed.

(** A registry entry is the object built from a record with its code. *)
Lemma infoFromCode_Some (srcJson : list Json.country) code info :
  infoFromCode (readCountryInfoDB srcJson) !! code = Some info ->
  exists country, country ∈ srcJson /\ Json.cca3 country = code /\ info = infoOf country.
Proof.
  rewrite infoFromCode_entries. intros [Hin|Hm]%insert_all_Some.
  - apply list_elem_of_fmap in Hin as (r & [= -> ->] & Hr). eauto.
  - now rewrite lookup_empty in Hm.
Qed.

Lemma infoFromCode_is_Some (srcJson : list Json.country) code :
  is_Some (infoFromCode (readCountryInfoDB srcJson) !! code)
  <-> exists country, country ∈ srcJson /\ Json.cca3 country = code.
Proof.
  rewrite infoFromCode_entries, insert_all_is_Some, <- list_fmap_compose. split.
  - intros [Hin|[? Hm]]; [|now rewrite lookup_empty in Hm].
    apply list_elem_of_fmap in Hin as (r & -> & Hr). eauto.
  - intros (r & Hr & <-). left. apply list_elem_of_fmap. eauto.
Qed.

(** Every code the index resolves to has an entry in the registry. *)
Lemma resolved_code_registered (srcJson : list Json.country) name code :
  nameToCode (readCountryInfoDB srcJson) !! name = Some code ->
  is_Some (infoFromCode (readCountryInfoDB srcJson) !! code).
Proof.
  intros (r & Hr & _ & <-)%nameToCode_Some. apply infoFromCode_is_Some. eauto.
Qed.

(** The order variation in terms of the text before and after the first
    [" of "]. *)
Lemma orderVariation_Some (name : string) (ofPos : nat) :
  JSString.indexOf " of " name = Some ofPos ->
  orderVariation name
  = Some (JSString.trim (JSString.skip (ofPos + 4) name) +:+ " (" +:+
          JSString.trim (JSString.upto ofPos name +:+ " of ") +:+ ")").
Proof.
  intros Hpos. unfold orderVariation. rewrite Hpos.
  unfold JSString.substring.
  rewrite Nat.max_r, Nat.min_l, Nat.sub_0_r by lia.
  change (JSString.skip 0 name) with name.
  now rewrite (JSStringFacts.indexOf_upto " of " name ofPos Hpos).
Qed.

Example orderVariation_Korea :
  orderVariation "Republic of Korea" = Some "Korea (Republic of)".
Proof. reflexivity. Qed.

(** South Korea as the reference database has it, the native names
    in Latin letters. *)
Definition KOR : Json.country :=
  {| Json.cca3 := "KOR";
     Json.name := {| Json.common := "South Korea"; Json.official := "Republic of Korea" |};
     Json.native := [("kor", {| Json.common := "Hanguk"; Json.official := "Daehan Minguk" |})];
     Json.altSpellings := ["KR"; "Korea, Republic of"];
     Json.region := "Asia" |}.

(** C2, as the code has it: for a record of the reference database and one
    of its common, official or native names that contains [" of "], the name
    splits at the first [" of "] into a prefix and a suffix, and the index
    holds the variant "<suffix> (<prefix> of)", both parts trimmed, the " of"
    kept inside the parentheses.  The variant resolves to the record's code
    unless a later record with another code lists the same string. *)
Theorem order_variation_resolves
    (before after : list Json.country) (country : Json.country)
    (name : string) (ofPos : nat) :
  name ∈ baseNames country ->
  JSString.indexOf " of " name = Some ofPos ->
  let prefix := JSString.upto ofPos name in
  let suffix := JSString.skip (ofPos + 4) name in
  let variant :=
    JSString.trim suffix +:+ " (" +:+ JSString.trim (prefix +:+ " of ") +:+ ")" in
  name = prefix +:+ " of " +:+ suffix /\
  (forall q, (q < ofPos)%nat -> JSString.startsWith " of " (JSString.skip q name) = false) /\
  variant ∈ alternateNames country /\
  ((forall later, later ∈ after -> variant ∈ alternateNames later ->
                  Json.cca3 later = Json.cca3 country) ->
   nameToCode (readCountryInfoDB (before ++ country :: after)) !! variant
   = Some (Json.cca3 country)).
Proof.
  intros Hname Hpos prefix suffix variant.
  assert (variant ∈ alternateNames country) as Hvariant.
  { unfold alternateNames. rewrite !elem_of_app. right; left.
    apply list_elem_of_omap. exists name. split; [assumption |].
    now apply orderVariation_Some. }
  split; [exact (JSStringFacts.indexOf_split " of " name ofPos Hpos) |].
  split; [intros q Hq; exact (JSStringFacts.indexOf_first " of " name ofPos q Hpos Hq) |].
  split; [assumption |].
  intros Hafter. now apply nameToCode_last.
Qed.

(** "Republic of Korea" puts "Korea (Republic of)" into the index. *)
Lemma order_variation_resolves_witness :
  nameToCode (readCountryInfoDB [KOR]) !! "Korea (Republic of)" = Some "KOR".
Proof.
  refine (proj2 (proj2 (proj2
    (order_variation_resolves [] [] KOR "Republic of Korea" 8 _ _))) _).
  - unfold baseNames. simpl. apply list_elem_of_further, list_elem_of_here.
  - reflexivity.
  - intros later Hin. inversion Hin.
Defined.

(** C2 as the claim words it fails: the index built from [KOR] has no entry
    "Korea (Republic)" although "Republic of Korea" is a candidate name. *)
Lemma order_variation_counterexample :
  "Republic of Korea" ∈ baseNames KOR /\
  JSString.indexOf " of " "Republic of Korea" = Some 8%nat /\
  nameToCode (readCountryInfoDB [KOR]) !! "Korea (Republic)" = None /\
  nameToCode (readCountryInfoDB [KOR]) !! "Korea (Republic of)" = Some "KOR".
Proof.
  split; [apply list_elem_of_further, list_elem_of_here |].
  split; [reflexivity |].
  split; vm_compute; reflexivity.
Qed.

(** An alternate spelling is added after the order variations were derived:
    it gets no variant of its own. *)
Example altSpelling_without_variation :
  let country :=
    {| Json.cca3 := "KOR";
       Json.name := {| Json.common := "South Korea"; Json.official := "Daehan Minguk" |};
       Json.native := [];
       Json.altSpellings := ["Republic of Korea"];
       Json.region := "Asia" |} in
  nameToCode (readCountryInfoDB [country]) !! "Republic of Korea" = Some "KOR" /\
  nameToCode (readCountryInfoDB [country]) !! "Korea (Republic of)" = None.
Proof. split; vm_compute; reflexivity. Qed.

(** The two Congos, as far as the names matter here. *)
Definition COD : Json.country :=
  {| Json.cca3 := "COD";
     Json.name := {| Json.common := "DR Congo";
                     Json.official := "Democratic Republic of the Congo" |};
     Json.native := [];
     Json.altSpellings := ["CD"; "Congo-Kinshasa"];
     Json.region := "Africa" |}.

Definition COG : Json.country :=
  {| Json.cca3 := "COG";
     Json.name := {| Json.common := "Republic of the Congo";
                     Json.official := "Republic of the Congo" |};
     Json.native := [];
     Json.altSpellings := ["CG"; "Congo"; "Congo-Brazzaville"];
     Json.region := "Africa" |}.

(** Where a forced name does win: its record sets it after its own other
    names and after the names of every earlier record, so it resolves to the
    forced code when no later record with another code lists the same name. *)
Lemma forced_name_of_last_record
    (before after : list Json.country) (country : Json.country)
    (names : list string) (forcedMatch : string) :
  JSMap.get (Json.cca3 country) forcedCountryNames = Some names ->
  forcedMatch ∈ names ->
  (forall later, later ∈ after -> forcedMatch ∈ alternateNames later ->
                 Json.cca3 later = Json.cca3 country) ->
  nameToCode (readCountryInfoDB (before ++ country :: after)) !! forcedMatch
  = Some (Json.cca3 country).
Proof.
  intros Hforced Hin Hafter. apply nameToCode_last; [|assumption].
  unfold alternateNames, forcedNames. rewrite Hforced, !elem_of_app. tauto.
Qed.

(** With the record of COG before the one of COD, the forced name wins over
    COG's alternate spelling; without a record for COD it is not in the
    index. *)
Example forced_name_after_collision :
  nameToCode (readCountryInfoDB [COG; COD]) !! "Congo" = Some "COD" /\
  nameToCode (readCountryInfoDB [KOR]) !! "Congo" = None.
Proof. split; vm_compute; reflexivity. Qed.

(** C5 at the reference database [COD; COG], the two records in the order of
    their codes: the override table forces "Congo" to COD, and the record of
    COD puts the name into the index; the record of COG, which lists "Congo"
    as an alternate spelling, comes later and overwrites the entry.  After the
    index is built "Congo" resolves to COG and not to the forced code, and
    so does the name forced to COG: both names of the override table for the
    two Congos resolve to COG. *)
Theorem forced_name_overwritten :
  JSMap.get "COD" forcedCountryNames = Some ["Congo"] /\
  JSMap.get "COG" forcedCountryNames = Some ["Congo (Democratic Republic of the)"] /\
  "Congo" ∈ forcedNames COD /\
  "Congo" ∈ alternateNames COD /\
  "Congo" ∈ Json.altSpellings COG /\
  "Congo" ∉ forcedNames COG /\
  nameToCode (readCountryInfoDB [COD]) !! "Congo" = Some "COD" /\
  nameToCode (readCountryInfoDB [COD; COG]) !! "Congo" = Some "COG" /\
  nameToCode (readCountryInfoDB [COD; COG]) !! "Congo" <> Some "COD" /\
  nameToCode (readCountryInfoDB [COD; COG]) !! "Congo (Democratic Republic of the)"
  = Some "COG".
Proof.
  split; [reflexivity |]. split; [reflexivity |].
  split; [vm_compute; apply list_elem_of_here |].
  split.
  { unfold alternateNames. rewrite !elem_of_app. do 3 right.
    vm_compute. apply list_elem_of_here. }
  split; [apply list_elem_of_further, list_elem_of_here |].
  split.
  { vm_compute. intros Hin. apply list_elem_of_singleton in Hin. discriminate. }
  split; [vm_compute; reflexivity |].
  split; [vm_compute; reflexivity |].
  split; [vm_compute; discriminate | vm_compute; reflexivity].
Qed.

(** ** The Limit tracker *)

(** The Limit after [expandRange] was called with each number of a list, in
    order. *)
Definition expandAll (values : list number) (limit : Limit) : Limit :=
  foldl (fun l v => Limit.expandRange v l) limit values.

(** C6: [expandRange] leaves the Limit alone for a number that is not finite
    (NaN, +infinity, -infinity, and only those); for a finite one it sets
    [min] to the minimum of [min] and the number and [max] to the maximum of
    [max] and the number; calling it again with the same number changes
    nothing; from a fresh Limit the numbers 3, 1, 4, 1, 5, NaN, 9 give
    [min = 1], [max = 9], and numbers none of which is finite leave
    [min = +infinity], [max = -infinity]. *)
Theorem expandRange_spec :
  (forall v, isFinite v = false <->
             v = NaN \/ v = POSITIVE_INFINITY \/ v = NEGATIVE_INFINITY) /\
  (forall v l, isFinite v = false -> Limit.expandRange v l = l) /\
  (forall v l, isFinite v = true ->
     Limit.expandRange v l =
       {| Limit.min := Math_min (Limit.min l) v;
          Limit.max := Math_max (Limit.max l) v |}) /\
  (forall v l, Limit.expandRange v (Limit.expandRange v l) = Limit.expandRange v l) /\
  expandAll [ofZ 3; ofZ 1; ofZ 4; ofZ 1; ofZ 5; NaN; ofZ 9] Limit.new
    = {| Limit.min := ofZ 1; Limit.max := ofZ 9 |} /\
  (forall vs, Forall (fun v => isFinite v = false) vs ->
     expandAll vs Limit.new
       = {| Limit.min := POSITIVE_INFINITY; Limit.max := NEGATIVE_INFINITY |}).
Proof.
  split; [exact JSNumberFacts.isFinite_false |].
  split; [intros v l Hv; unfold Limit.expandRange; now rewrite Hv |].
  split.
  { intros v l Hv. unfold Limit.expandRange. rewrite Hv. simpl.
    now rewrite (JSNumberFacts.Math_min_comm v), (JSNumberFacts.Math_max_comm v). }
  split.
  { intros v l. unfold Limit.expandRange.
    destruct (isFinite v) eqn:Hv; simpl; [|reflexivity].
    now rewrite JSNumberFacts.Math_min_absorb, JSNumberFacts.Math_max_absorb. }
  split; [vm_compute; reflexivity |].
  intros vs Hvs. change (expandAll vs Limit.new = Limit.new).
  generalize Limit.new as l.
  induction Hvs as [|v vs Hv _ IH]; intros l; [reflexivity |].
  unfold expandAll in *. simpl. unfold Limit.expandRange at 2. rewrite Hv. apply IH.
Qed.

(** At the fresh Limit, NaN changes nothing. *)
Lemma expandRange_spec_witness :
  isFinite NaN = false /\ Limit.expandRange NaN Limit.new = Limit.new.
Proof.
  split; [reflexivity |].
  apply (proj1 (proj2 expandRange_spec) NaN Limit.new). reflexivity.
Defined.

(** ** The join of one country: [readCountryStats] *)
Section readCountryStats_facts.
Variable sources : ResourceID -> Map string DSVRowString.
Variable countryName : string.

(** What [safeFetchData] returns: [null] without a row, else the field. *)
Definition fetched (resourceID : ResourceID) (year : string) : JSValue :=
  match JSMap.get countryName (sources resourceID) with
  | None => JSNull
  | Some row => row_get row year
  end.

(** The numbers [safeFetchData] passes to [expandRange] of one Limit, over
    the years. *)
Definition expanded (resourceID : ResourceID) : list number :=
  match JSMap.get countryName (sources resourceID) with
  | None => []
  | Some row => (fun year => parseFloat (row_get row year)) <$> years
  end.

(** The entry [readCountryStats] sets for a year. *)
Definition entryOf (year : string) : CountryStats :=
  {| CountryStats.gdp := parseInt (fetched ResourceID.gdp year);
     CountryStats.inequality :=
       {| CountryStats.combined := parseFloat (fetched ResourceID.ineq_comb year);
          CountryStats.education := parseFloat (fetched ResourceID.ineq_edu year);
          CountryStats.life_expectancy := parseFloat (fetched ResourceID.ineq_inc year);
          CountryStats.income := parseFloat (fetched ResourceID.ineq_life year) |} |}.

Definition countryStats : Map string CountryStats :=
  (fun year => (year, entryOf year)) <$> years.

Definition expandOne (resourceID : ResourceID) (year : string)
    (limits : StatLimits) : StatLimits :=
  match JSMap.get countryName (sources resourceID) with
  | None => limits
  | Some row =>
      StatLimits.update resourceID
        (Limit.expandRange (parseFloat (row_get row year))) limits
  end.

Definition expandYear (year : string) (limits : StatLimits) : StatLimits :=
  expandOne ResourceID.ineq_life year
    (expandOne ResourceID.ineq_inc year
      (expandOne ResourceID.ineq_edu year
        (expandOne ResourceID.ineq_comb year
          (expandOne ResourceID.gdp year limits)))).

Lemma safeFetchData_run resourceID year limits :
  safeFetchData sources countryName resourceID year limits
  = (fetched resourceID year, expandOne resourceID year limits).
Proof.
  unfold safeFetchData, fetched, expandOne.
  now destruct (JSMap.get countryName (sources resourceID)).
Qed.

Lemma yearStats_run year limits :
  yearStats sources countryName year limits
  = ((year, entryOf year), expandYear year limits).
Proof.
  unfold yearStats, bind. now rewrite !safeFetchData_run.
Qed.

Lemma forEach_run {S A B : Type} (body : A -> State S B)
    (f : A -> B) (g : A -> S -> S) (l : list A) (s : S) :
  (forall x s, body x s = (f x, g x s)) ->
  forEach l body s = (f <$> l, foldl (fun s x => g x s) s l).
Proof.
  intros Hbody. revert s; induction l as [|x l IH]; intros s; [reflexivity |].
  simpl. unfold bind. now rewrite Hbody, IH.
Qed.

(** [readCountryStats] returns [countryStats], whatever the limits are,
    and expands the limits year by year. *)
Lemma readCountryStats_run limits :
  readCountryStats sources countryName limits
  = (countryStats, foldl (fun limits year => expandYear year limits) limits years).
Proof.
  unfold readCountryStats, bind.
  rewrite (forEach_run _ (fun year => (year, entryOf year)) expandYear years limits
             yearStats_run).
  reflexivity.
Qed.

Lemma keys_countryStats : JSMap.keys countryStats = years.
Proof. reflexivity. Qed.

Lemma get_countryStats year :
  year ∈ years -> JSMap.get year countryStats = Some (entryOf year).
Proof.
  intros Hin. apply JSMapFacts.elem_get_Some.
  - rewrite keys_countryStats. compute_done.
  - unfold countryStats. apply list_elem_of_fmap. eauto.
Qed.

Lemma get_update (id id' : ResourceID) (f : Limit -> Limit) (limits : StatLimits) :
  StatLimits.get id (StatLimits.update id' f limits)
  = if decide (id = id') then f (StatLimits.get id limits) else StatLimits.get id limits.
Proof. destruct id, id'; reflexivity. Qed.

Lemma get_expandOne (id id' : ResourceID) year limits :
  StatLimits.get id (expandOne id' year limits)
  = if decide (id = id')
    then match JSMap.get countryName (sources id) with
         | None => StatLimits.get id limits
         | Some row => Limit.expandRange (parseFloat (row_get row year))
                                         (StatLimits.get id limits)
         end
    else StatLimits.get id limits.
Proof.
  unfold expandOne. destruct (decide (id = id')) as [<-|Hne].
  - destruct (JSMap.get countryName (sources id)); [|reflexivity].
    rewrite get_update. now destruct (decide (id = id)).
  - destruct (JSMap.get countryName (sources id')); [|reflexivity].
    rewrite get_update. now destruct (decide (id = id')).
Qed.

Lemma get_expandYear (id : ResourceID) year limits :
  StatLimits.get id (expandYear year limits)
  = match JSMap.get countryName (sources id) with
    | None => StatLimits.get id limits
    | Some row => Limit.expandRange (parseFloat (row_get row year))
                                    (StatLimits.get id limits)
    end.
Proof.
  unfold expandYear. rewrite !get_expandOne.
  destruct id; simpl; reflexivity.
Qed.

Lemma get_foldl_expandYear (id : ResourceID) (ys : list string) limits :
  StatLimits.get id (foldl (fun limits year => expandYear year limits) limits ys)
  = expandAll
      match JSMap.get countryName (sources id) with
      | None => []
      | Some row => (fun year => parseFloat (row_get row year)) <$> ys
      end
      (StatLimits.get id limits).
Proof.
  unfold expandAll. revert limits.
  induction ys as [|y ys IH]; intros limits; simpl.
  - now destruct (JSMap.get countryName (sources id)).
  - rewrite IH, get_expandYear.
    now destruct (JSMap.get countryName (sources id)).
Qed.

(** Each Limit sees the numbers of its own source only. *)
Lemma get_readCountryStats (id : ResourceID) limits :
  StatLimits.get id (readCountryStats sources countryName limits).2
  = expandAll (expanded id) (StatLimits.get id limits).
Proof. rewrite readCountryStats_run. apply get_foldl_expandYear. Qed.
End readCountryStats_facts.

(** ** The loop of [loadData] *)
Section join_facts.
Variable index : gmap string string.
Variable sources : ResourceID -> Map string DSVRowString.

(** The state after the loop body ran for a name that resolved to [code],
    the key of the object [countryInfo]. *)
Definition joined (dataSource : DataSource) (code : string) (countryInfo : Country)
    (countryCSVName : string) : DataSource :=
  {| data := JSMap.set (Country.name countryInfo) code (data dataSource);
     dataLimits := (readCountryStats sources countryCSVName (dataLimits dataSource)).2;
     store := <[code := Country.assign_stats countryInfo
                          (countryStats sources countryCSVName)]>
                (store dataSource) |}.

Lemma join_cons name names dataSource :
  join index sources (name :: names) dataSource
  = match index !! JSString.trim name with
    | None => Throw ("No country info for " +:+ JSString.trim name)
    | Some code =>
        match store dataSource !! code with
        | None => Throw ("No country info for " +:+ JSString.trim name)
        | Some countryInfo =>
            join index sources names
              (joined dataSource code countryInfo (JSString.trim name))
        end
    end.
Proof.
  cbn [join].
  destruct (index !! JSString.trim name) as [code|]; [|reflexivity].
  destruct (store dataSource !! code) as [countryInfo|]; [|reflexivity].
  unfold joined. now rewrite readCountryStats_run.
Qed.

Lemma join_cons_Ok name names dataSource result :
  join index sources (name :: names) dataSource = Ok result ->
  exists code countryInfo,
    index !! JSString.trim name = Some code /\
    store dataSource !! code = Some countryInfo /\
    join index sources names (joined dataSource code countryInfo (JSString.trim name))
    = Ok result.
Proof.
  rewrite join_cons.
  destruct (index !! JSString.trim name) as [code|]; [|discriminate].
  destruct (store dataSource !! code) as [countryInfo|] eqn:Hinfo; [|discriminate].
  intros Hjoin. exists code, countryInfo. auto.
Qed.

(** The display name a source name resolves to, through the objects of a
    store. *)
Definition displayName (objects : gmap string Country) (name : string) : option string :=
  index !! JSString.trim name ≫= fun code => Country.name <$> objects !! code.

Lemma displayName_joined dataSource code countryInfo countryCSVName name :
  store dataSource !! code = Some countryInfo ->
  displayName (store (joined dataSource code countryInfo countryCSVName)) name
  = displayName (store dataSource) name.
Proof.
  intros Hinfo. unfold displayName, joined. simpl.
  destruct (index !! JSString.trim name) as [code'|]; [simpl | reflexivity].
  destruct (decide (code = code')) as [<-|Hne].
  - now rewrite lookup_insert_eq, Hinfo.
  - now rewrite lookup_insert_ne.
Qed.

(** *** Failure *)
Lemma join_throws names dataSource :
  (forall name code, index !! name = Some code -> is_Some (store dataSource !! code)) ->
  (exists name, name ∈ names /\ index !! JSString.trim name = None) ->
  exists name, name ∈ names /\ index !! JSString.trim name = None /\
    join index sources names dataSource
    = Throw ("No country info for " +:+ JSString.trim name).
Proof.
  revert dataSource; induction names as [|n names IH]; intros st Hreg (bad & Hbad & Hnone).
  - inversion Hbad.
  - rewrite join_cons.
    destruct (index !! JSString.trim n) as [code|] eqn:Hcode.
    + destruct (Hreg _ _ Hcode) as [info Hinfo]. rewrite Hinfo.
      destruct (IH (joined st code info (JSString.trim n))) as (name & Hin & Hn & Hthrow).
      * intros name' code' Hres. simpl.
        destruct (decide (code = code')) as [<-|Hne].
        -- rewrite lookup_insert_eq. eauto.
        -- rewrite lookup_insert_ne by assumption. eauto.
      * apply elem_of_cons in Hbad as [->|Hbad]; [congruence | eauto].
      * exists name. split; [now apply list_elem_of_further | tauto].
    + exists n. split; [apply list_elem_of_here | tauto].
Qed.

(** *** What is published *)

(** Every entry of [data] points to an object with the entry's key as
    its name, whose [stats] were read for a source name that satisfies [P]
    and resolves to the object. *)
Definition published (P : string -> Prop) (dataSource : DataSource) : Prop :=
  forall name ref, (name, ref) ∈ data dataSource ->
    exists country csvName,
      store dataSource !! ref = Some country /\
      Country.name country = name /\
      P csvName /\
      index !! JSString.trim csvName = Some ref /\
      Country.stats country = Some (countryStats sources (JSString.trim csvName)).

Lemma elem_of_set {K V : Type} `{EqDecision K} (k k' : K) (v v' : V) (m : list (K * V)) :
  (k', v') ∈ JSMap.set k v m -> (k', v') = (k, v) \/ (k', v') ∈ m.
Proof.
  induction m as [|[k0 v0] m IH]; simpl.
  - rewrite list_elem_of_singleton. tauto.
  - destruct (decide (k = k0)) as [->|Hk]; rewrite !elem_of_cons; [tauto |].
    intros [?|?]; [tauto | destruct IH; tauto].
Qed.

Lemma join_published (P : string -> Prop) names dataSource result :
  join index sources names dataSource = Ok result ->
  (forall name, name ∈ names -> P name) ->
  published P dataSource -> published P result.
Proof.
  revert dataSource; induction names as [|n names IH]; intros st Hjoin HP Hpub.
  - injection Hjoin as <-. assumption.
  - apply join_cons_Ok in Hjoin as (code & info & Hcode & Hinfo & Hjoin).
    apply (IH _ Hjoin); [intros; now apply HP, list_elem_of_further |].
    intros name ref [[= -> ->]|Hin]%elem_of_set.
    + exists (Country.assign_stats info (countryStats sources (JSString.trim n))), n.
      simpl. rewrite lookup_insert_eq.
      repeat split; try reflexivity; [apply HP, list_elem_of_here | assumption].
    + destruct (Hpub _ _ Hin) as (c & csv & Hc & Hname & Hcsv & Hres & Hstats).
      simpl. destruct (decide (code = ref)) as [->|Hne].
      * exists (Country.assign_stats info (countryStats sources (JSString.trim n))), n.
        rewrite lookup_insert_eq.
        repeat split; try reflexivity;
          [simpl; congruence | apply HP, list_elem_of_here | assumption].
      * exists c, csv. rewrite lookup_insert_ne by assumption. tauto.
Qed.

(** *** The objects of the store *)
Lemma join_store names dataSource result :
  join index sources names dataSource = Ok result ->
  forall code,
    match store dataSource !! code with
    | None => store result !! code = None
    | Some info =>
        exists info',
          store result !! code = Some info' /\
          Country.code info' = Country.code info /\
          Country.name info' = Country.name info /\
          Country.region info' = Country.region info /\
          (is_Some (Country.stats info) -> is_Some (Country.stats info')) /\
          ((forall name, name ∈ names -> index !! JSString.trim name <> Some code) ->
           info' = info) /\
          ((exists name, name ∈ names /\ index !! JSString.trim name = Some code) ->
           is_Some (Country.stats info'))
    end.
Proof.
  revert dataSource; induction names as [|n names IH]; intros st Hjoin code.
  - injection Hjoin as <-. destruct (store st !! code) as [info|]; [|reflexivity].
    exists info. repeat split; try tauto. intros (name & Hin & _). inversion Hin.
  - apply join_cons_Ok in Hjoin as (code0 & info0 & Hcode & Hinfo & Hjoin).
    specialize (IH _ Hjoin code). simpl in IH.
    destruct (decide (code0 = code)) as [->|Hne].
    + rewrite lookup_insert_eq in IH. rewrite Hinfo.
      destruct IH as (info' & Hres & Hc & Hn & Hr & Hs & _ & _).
      exists info'. simpl in *. repeat split; try assumption.
      * intros _. apply Hs. eauto.
      * intros Hno. exfalso. apply (Hno n); [apply list_elem_of_here | assumption].
      * intros _. apply Hs. eauto.
    + rewrite lookup_insert_ne in IH by assumption.
      destruct (store st !! code) as [info|]; [|assumption].
      destruct IH as (info' & Hres & Hc & Hn & Hr & Hs & Hsame & Hsome).
      exists info'. repeat split; try assumption.
      * intros Hno. apply Hsame. intros name Hin. now apply Hno, list_elem_of_further.
      * intros (name & [->|Hin]%elem_of_cons & Hname); [congruence | eauto].
Qed.

(** *** The limits *)
Lemma expandAll_app (a b : list number) (limit : Limit) :
  expandAll (a ++ b) limit = expandAll b (expandAll a limit).
Proof. apply foldl_app. Qed.

Lemma join_limits names dataSource result :
  join index sources names dataSource = Ok result ->
  forall id,
    StatLimits.get id (dataLimits result)
    = expandAll (names ≫= fun name => expanded sources (JSString.trim name) id)
                (StatLimits.get id (dataLimits dataSource)).
Proof.
  revert dataSource; induction names as [|n names IH]; intros st Hjoin id.
  - injection Hjoin as <-. reflexivity.
  - apply join_cons_Ok in Hjoin as (code & info & _ & _ & Hjoin).
    rewrite (IH _ Hjoin id), bind_cons, expandAll_app. simpl.
    now rewrite get_readCountryStats.
Qed.
End join_facts.

(** ** The order and the membership of the published countries *)
Section join_order.
Variable index : gmap string string.
Variable sources : ResourceID -> Map string DSVRowString.
Variable objects : gmap string Country.





(** Every key of the published [data] is the display name of a source
    name. *)
Lemma join_keys names dataSource result key :
  join index sources names dataSource = Ok result ->
  key ∈ JSMap.keys (data result) ->
  key ∈ JSMap.keys (data dataSource) \/
  exists name, name ∈ names /\ displayName index (store dataSource) name = Some key.
Proof.
  revert dataSource; induction names as [|n names IH]; intros st Hjoin Hkey.
  - injection Hjoin as <-. now left.
  - apply join_cons_Ok in Hjoin as (code & info & Hcode & Hinfo & Hjoin).
    destruct (IH _ Hjoin Hkey) as [Hin|(name & Hin & Hname)].
    + simpl in Hin. apply JSMapFacts.elem_of_keys_set in Hin as [->|Hin]; [|now left].
      right. exists n. split; [apply list_elem_of_here |].
      unfold displayName. now rewrite Hcode; simpl; rewrite Hinfo.
    + right. exists name. split; [now apply list_elem_of_further |].
      now rewrite displayName_joined in Hname.
Qed.

(** ... and every display name of a source name is a key. *)
Lemma join_keys_complete (names : list string) (dataSource result : DataSource)
    (key : string) :
  join index sources names dataSource = Ok result ->
  key ∈ JSMap.keys (data dataSource) \/
    (exists name, name ∈ names /\ displayName index (store dataSource) name = Some key) ->
  key ∈ JSMap.keys (data result).
Proof.
  revert dataSource; induction names as [|n names IH]; intros st Hjoin Hkey.
  - injection Hjoin as <-. destruct Hkey as [?|(name & Hin & _)]; [assumption | inversion Hin].
  - apply join_cons_Ok in Hjoin as (code & info & Hcode & Hinfo & Hjoin).
    apply (IH _ Hjoin). cbn [data joined].
    destruct Hkey as [Hkey|(name & Hin & Hname)].
    + left. apply JSMapFacts.elem_of_keys_set. now right.
    + apply elem_of_cons in Hin as [->|Hin].
      * left. apply JSMapFacts.elem_of_keys_set. left.
        unfold displayName in Hname. rewrite Hcode in Hname. simpl in Hname.
        rewrite Hinfo in Hname. now injection Hname.
      * right. exists name. split; [assumption |].
        now rewrite displayName_joined.
Qed.

(** A loop that succeeds resolved every name, to an object that was in the
    store from the start. *)
Lemma join_resolves names dataSource result :
  join index sources names dataSource = Ok result ->
  forall name, name ∈ names ->
    exists code info, index !! JSString.trim name = Some code /\
                      store dataSource !! code = Some info.
Proof.
  revert dataSource; induction names as [|n names IH]; intros st Hjoin name Hin.
  - inversion Hin.
  - apply join_cons_Ok in Hjoin as (code & info & Hcode & Hinfo & Hjoin).
    apply elem_of_cons in Hin as [->|Hin]; [eauto |].
    destruct (IH _ Hjoin name Hin) as (code' & info' & Hcode' & Hinfo').
    exists code'. cbn [store joined] in Hinfo'.
    destruct (decide (code = code')) as [<-|Hne]; [eauto |].
    rewrite lookup_insert_ne in Hinfo' by assumption. eauto.
Qed.

End join_order.

(** ** [loadData] *)

(** The local [data] of [loadData] and the names its loop runs over. *)
Definition loaded (resources : Resources) (resourceID : ResourceID)
    : Map string DSVRowString :=
  csvLoader (csv resources resourceID).

Definition anchorNames (resources : Resources) : list string :=
  JSMap.keys (loaded resources ResourceID.gdp).

Lemma loadData_join (resources : Resources) :
  loadData resources
  = join (nameToCode (readCountryInfoDB (countries_json resources)))
         (loaded resources) (anchorNames resources)
         {| data := []; dataLimits := StatLimits.new;
            store := infoFromCode (readCountryInfoDB (countries_json resources)) |}.
Proof. reflexivity. Qed.

(** The names of the loop are the trimmed [Country] fields of the gdp rows. *)
Lemma elem_of_anchorNames (resources : Resources) (name : string) :
  name ∈ anchorNames resources
  <-> exists row, row ∈ csv resources ResourceID.gdp
                  /\ name = JSString.trim (Country_ row).
Proof.
  unfold anchorNames, loaded, csvLoader.
  rewrite JSMapFacts.keys_new, <- list_fmap_compose, list_elem_of_fmap.
  split; intros (row & H1 & H2); exists row; auto.
Qed.

(** ... so trimming them again, as the loop does, changes nothing ... *)
Lemma anchorNames_trimmed (resources : Resources) (name : string) :
  name ∈ anchorNames resources -> JSString.trim name = name.
Proof.
  intros (row & _ & ->)%elem_of_anchorNames. apply JSStringFacts.trim_idempotent.
Qed.

(** ... and each of them has its row in the gdp source. *)
Lemma anchorNames_row (resources : Resources) (name : string) :
  name ∈ anchorNames resources ->
  exists row, (name, row) ∈ loaded resources ResourceID.gdp /\
              JSMap.get name (loaded resources ResourceID.gdp) = Some row.
Proof.
  unfold anchorNames. intros Hin.
  destruct (JSMap.get name (loaded resources ResourceID.gdp)) as [row|] eqn:Hget.
  - exists row. split; [now apply JSMapFacts.get_Some_elem | reflexivity].
  - now apply JSMapFacts.get_None in Hget.
Qed.

Lemma loadData_published (resources : Resources) (result : DataSource) :
  loadData resources = Ok result ->
  published (nameToCode (readCountryInfoDB (countries_json resources)))
            (loaded resources) (fun name => name ∈ anchorNames resources) result.
Proof.
  rewrite loadData_join. intros Hjoin.
  apply (join_published _ _ _ _ _ _ Hjoin); [auto |].
  intros name ref Hin. inversion Hin.
Qed.

Lemma elem_of_getCountries (dataSource : DataSource) (country : Country) :
  country ∈ getCountries dataSource ->
  exists key ref, (key, ref) ∈ data dataSource /\ store dataSource !! ref = Some country.
Proof.
  unfold getCountries, JSMap.values.
  intros (ref & Hin & Hc)%list_elem_of_omap.
  apply list_elem_of_fmap in Hin as ([key ref'] & -> & Hin). eauto.
Qed.

(** Every published country carries the stats [readCountryStats] computes
    for a name of the gdp source that resolves to it. *)
Lemma published_stats (resources : Resources) (result : DataSource) (country : Country) :
  loadData resources = Ok result ->
  country ∈ getCountries result ->
  exists csvName,
    csvName ∈ anchorNames resources /\
    nameToCode (readCountryInfoDB (countries_json resources)) !! csvName
    = Some (Country.code country) /\
    Country.stats country = Some (countryStats (loaded resources) csvName).
Proof.
  intros Hload (key & ref & Hin & Hc)%elem_of_getCountries.
  destruct (loadData_published _ _ Hload _ _ Hin)
    as (c & csvName & Hc' & _ & Hanchor & Hres & Hstats).
  assert (c = country) as -> by congruence.
  rewrite (anchorNames_trimmed _ _ Hanchor) in Hres, Hstats.
  exists csvName. repeat split; try assumption.
  rewrite Hres. f_equal.
  rewrite loadData_join in Hload.
  pose proof (join_store _ _ _ _ _ Hload ref) as Hstore. cbn [store] in Hstore.
  destruct (infoFromCode (readCountryInfoDB (countries_json resources)) !! ref)
    as [info|] eqn:Hinfo; [|congruence].
  destruct Hstore as (info' & Hinfo' & Hcode & _).
  apply infoFromCode_Some in Hinfo as (r & _ & <- & ->).
  assert (info' = country) as -> by congruence. now rewrite Hcode.
Qed.

(** *** C3 *)

(** The scenario of the specification: a gdp row named "Republicland" and a
    reference database that does not know the name. *)
Definition yearly (country value : string) : DSVRowString :=
  {| Country_ := country;
     columns := list_to_map ((fun year => (year, value)) <$> years) |}.

Definition republicland : Resources :=
  {| countries_json := [KOR];
     csv := fun resourceID =>
       match resourceID with
       | ResourceID.gdp => [yearly "South Korea" "27000"; yearly " Republicland" "1"]
       | _ => [yearly "South Korea" "10.5"]
       end |}.

(** The same sources without the row of Republicland. *)
Definition republicland_resolved : Resources :=
  {| countries_json := [KOR];
     csv := fun resourceID =>
       match resourceID with
       | ResourceID.gdp => [yearly "South Korea" "27000"]
       | _ => [yearly "South Korea" "10.5"]
       end |}.

(** C3: when the trimmed name of some gdp row has no entry in the name
    resolution index, [loadData] throws; the message names a gdp row's trimmed
    name that has no entry, and no [DataSource] is returned. *)
Theorem unresolved_name_fails (resources : Resources) :
  (exists row, row ∈ csv resources ResourceID.gdp /\
     nameToCode (readCountryInfoDB (countries_json resources))
       !! JSString.trim (Country_ row) = None) ->
  (exists row, row ∈ csv resources ResourceID.gdp /\
     nameToCode (readCountryInfoDB (countries_json resources))
       !! JSString.trim (Country_ row) = None /\
     loadData resources
     = Throw ("No country info for " +:+ JSString.trim (Country_ row))) /\
  (forall result, loadData resources <> Ok result).
Proof.
  intros (row & Hrow & Hnone).
  destruct (join_throws
              (nameToCode (readCountryInfoDB (countries_json resources)))
              (loaded resources) (anchorNames resources)
              {| data := []; dataLimits := StatLimits.new;
                 store := infoFromCode (readCountryInfoDB (countries_json resources)) |})
    as (name & Hin & Hname & Hthrow).
  - intros name code Hres. simpl. now apply (resolved_code_registered _ name).
  - exists (JSString.trim (Country_ row)). split.
    + apply elem_of_anchorNames. eauto.
    + now rewrite JSStringFacts.trim_idempotent.
  - rewrite <- loadData_join in Hthrow.
    apply elem_of_anchorNames in Hin as (row' & Hrow' & ->).
    rewrite JSStringFacts.trim_idempotent in Hname, Hthrow.
    split; [eauto | intros result; now rewrite Hthrow].
Qed.

Lemma unresolved_name_fails_witness :
  loadData republicland = Throw "No country info for Republicland".
Proof.
  destruct (unresolved_name_fails republicland) as [(row & Hrow & Hnone & Hthrow) _].
  - exists (yearly " Republicland" "1").
    split; [apply list_elem_of_further, list_elem_of_here | vm_compute; reflexivity].
  - rewrite Hthrow. f_equal.
    apply elem_of_cons in Hrow as [->|Hrow]; [vm_compute in Hnone; discriminate |].
    apply list_elem_of_singleton in Hrow as ->. reflexivity.
Defined.

(** *** C7 *)

(** C7: after a load that succeeds, every country of [getCountries] has a
    [stats] map whose keys are exactly the eight years 2010 to 2017, in that
    order, whatever numbers the entries hold. *)
Theorem every_year_has_entry (resources : Resources) (result : DataSource) :
  loadData resources = Ok result ->
  forall country, country ∈ getCountries result ->
    exists stats,
      Country.stats country = Some stats /\
      JSMap.keys stats
      = ["2010"; "2011"; "2012"; "2013"; "2014"; "2015"; "2016"; "2017"] /\
      JSMap.keys stats = years /\
      length (JSMap.keys stats) = 8%nat /\
      forall year, year ∈ years -> is_Some (JSMap.get year stats).
Proof.
  intros Hload country Hin.
  destruct (published_stats _ _ _ Hload Hin) as (csvName & _ & _ & Hstats).
  exists (countryStats (loaded resources) csvName).
  repeat split; try assumption; try reflexivity.
  intros year Hyear. rewrite get_countryStats by assumption. eauto.
Qed.

Lemma every_year_has_entry_witness :
  exists result country stats,
    loadData republicland_resolved = Ok result /\
    country ∈ getCountries result /\
    Country.stats country = Some stats /\
    JSMap.keys stats = years.
Proof.
  destruct (loadData republicland_resolved) as [result|] eqn:Hload;
    [|vm_compute in Hload; discriminate].
  assert (exists country, getCountries result = [country]) as [country Hcountry].
  { revert Hload. vm_compute. intros [= <-]. eauto. }
  destruct (every_year_has_entry republicland_resolved result Hload country)
    as (stats & Hstats & _ & Hkeys & _).
  - rewrite Hcountry. apply list_elem_of_here.
  - exists result, country, stats. rewrite Hcountry.
    split; [reflexivity |]. split; [apply list_elem_of_here | tauto].
Defined.

(** *** C9 *)

(** Chile in the reference database and in the gdp source. *)
Definition CHL : Json.country :=
  {| Json.cca3 := "CHL";
     Json.name := {| Json.common := "Chile"; Json.official := "Republic of Chile" |};
     Json.native := [("spa", {| Json.common := "Chile"; Json.official := "Republica de Chile" |})];
     Json.altSpellings := ["CL"];
     Json.region := "Americas" |}.

Definition BGR : Json.country :=
  {| Json.cca3 := "BGR";
     Json.name := {| Json.common := "Bulgaria"; Json.official := "Republic of Bulgaria" |};
     Json.native := [];
     Json.altSpellings := ["BG"];
     Json.region := "Europe" |}.

Definition chile_only : Resources :=
  {| countries_json := [CHL; BGR];
     csv := fun resourceID =>
       match resourceID with
       | ResourceID.gdp => [yearly "Chile" "13000"]
       | _ => []
       end |}.

(** A gdp row whose trimmed name resolves to a code. *)
Definition resolved (resources : Resources) (code : string) : Prop :=
  exists row, row ∈ csv resources ResourceID.gdp /\
    nameToCode (readCountryInfoDB (countries_json resources))
      !! JSString.trim (Country_ row) = Some code.

Lemma resolved_anchorNames (resources : Resources) (code : string) :
  resolved resources code
  <-> exists name, name ∈ anchorNames resources /\
        nameToCode (readCountryInfoDB (countries_json resources))
          !! JSString.trim name = Some code.
Proof.
  split.
  - intros (row & Hrow & Hres). exists (JSString.trim (Country_ row)). split.
    + apply elem_of_anchorNames. eauto.
    + now rewrite JSStringFacts.trim_idempotent.
  - intros (name & (row & Hrow & ->)%elem_of_anchorNames & Hres).
    rewrite JSStringFacts.trim_idempotent in Hres. exists row. auto.
Qed.

(** The entry of [data] under a display name points to an object of the
    registry with that name, to which a gdp row resolves. *)
Lemma data_entry_resolved (resources : Resources) (result : DataSource)
    (key ref : string) :
  loadData resources = Ok result ->
  (key, ref) ∈ data result ->
  resolved resources ref /\
  exists info country,
    infoFromCode (readCountryInfoDB (countries_json resources)) !! ref = Some info /\
    store result !! ref = Some country /\
    Country.name info = key /\
    is_Some (Country.stats country).
Proof.
  intros Hload Hin.
  destruct (loadData_published _ _ Hload _ _ Hin)
    as (c & csvName & Hc & Hname & Hanchor & Hres & Hstats).
  split; [apply resolved_anchorNames; eauto |].
  rewrite loadData_join in Hload.
  pose proof (join_store _ _ _ _ _ Hload ref) as Hstore. cbn [store] in Hstore.
  destruct (infoFromCode (readCountryInfoDB (countries_json resources)) !! ref)
    as [info|]; [|congruence].
  destruct Hstore as (info' & Hinfo' & _ & Hn & _).
  assert (info' = c) as -> by congruence.
  exists info, c. repeat split; [assumption | congruence | now rewrite Hstats].
Qed.

(** C9, as the code has it: the join keeps the keys of the registry and the
    [code], [name] and [region] of every entry; an entry that no gdp row
    resolves to is left as it was built, without [stats]; to an entry that a
    gdp row resolves to the join adds the property [stats].  What is published
    are objects of the registry itself: every country of [getCountries] is an
    entry of the registry after the join, one that a gdp row resolves to; and
    an entry that a gdp row resolves to is published under its display name
    when no gdp row resolves to another entry with the same display name. *)
Theorem registry_after_join (resources : Resources) (result : DataSource) :
  loadData resources = Ok result ->
  let countries := readCountryInfoDB (countries_json resources) in
  (forall code, store result !! code = None <-> infoFromCode countries !! code = None) /\
  (forall code info, infoFromCode countries !! code = Some info ->
     exists info',
       store result !! code = Some info' /\
       Country.code info' = Country.code info /\
       Country.name info' = Country.name info /\
       Country.region info' = Country.region info /\
       Country.stats info = None /\
       ((forall row, row ∈ csv resources ResourceID.gdp ->
           nameToCode countries !! JSString.trim (Country_ row) <> Some code) ->
        info' = info) /\
       ((exists row, row ∈ csv resources ResourceID.gdp /\
           nameToCode countries !! JSString.trim (Country_ row) = Some code) ->
        is_Some (Country.stats info') /\
        ((forall other info2,
            resolved resources other ->
            infoFromCode countries !! other = Some info2 ->
            Country.name info2 = Country.name info -> other = code) ->
         getCountry result (Country.name info) = Some info' /\
         info' ∈ getCountries result))) /\
  (forall country, country ∈ getCountries result ->
     exists code info,
       resolved resources code /\
       infoFromCode countries !! code = Some info /\
       store result !! code = Some country /\
       Country.stats info = None /\
       is_Some (Country.stats country)).
Proof.
  intros Hload countries. pose proof Hload as Hjoin. rewrite loadData_join in Hjoin.
  pose proof (join_store _ _ _ _ _ Hjoin) as Hstore. cbn [store] in Hstore.
  fold countries in Hstore, Hjoin. split; [|split].
  - intros code. specialize (Hstore code).
    destruct (infoFromCode countries !! code) as [info|]; [|tauto].
    destruct Hstore as (info' & -> & _). split; discriminate.
  - intros code info Hinfo. specialize (Hstore code). rewrite Hinfo in Hstore.
    destruct Hstore as (info' & Hres & Hc & Hn & Hr & _ & Hsame & Hsome).
    exists info'.
    split; [assumption |]. split; [assumption |]. split; [assumption |].
    split; [assumption |].
    split; [now apply infoFromCode_Some in Hinfo as (r & _ & _ & ->) |].
    split.
    + intros Hno. apply Hsame. intros name Hin.
      apply elem_of_anchorNames in Hin as (row & Hrow & ->).
      rewrite JSStringFacts.trim_idempotent. now apply Hno.
    + intros Hrow.
      apply (resolved_anchorNames resources code) in Hrow as (name & Hname & Hcode).
      fold countries in Hcode.
      split; [apply Hsome; eauto |].
      intros Hunique.
      assert (Country.name info ∈ JSMap.keys (data result)) as Hkey.
      { apply (join_keys_complete _ _ _ _ _ _ Hjoin). right.
        exists name. split; [assumption |].
        unfold displayName. cbn [store]. rewrite Hcode. cbn [mbind option_bind].
        now rewrite Hinfo. }
      destruct (JSMap.get (Country.name info) (data result)) as [ref|] eqn:Href;
        [|now apply JSMapFacts.get_None in Href].
      pose proof (JSMapFacts.get_Some_elem _ _ _ Href) as Hin.
      destruct (data_entry_resolved _ _ _ _ Hload Hin)
        as (Hresolved & info2 & c & Hinfo2 & Hc2 & Hname2 & _).
      assert (ref = code) as -> by exact (Hunique ref info2 Hresolved Hinfo2 Hname2).
      split.
      * unfold getCountry. rewrite Href. exact Hres.
      * unfold getCountries, JSMap.values. apply list_elem_of_omap.
        exists code. split; [|assumption].
        now apply (list_elem_of_fmap_2 snd _ (Country.name info, code)).
  - intros country (key & ref & Hin & Hc)%elem_of_getCountries.
    destruct (data_entry_resolved _ _ _ _ Hload Hin)
      as (Hresolved & info & c & Hinfo & Hc' & _ & Hstats).
    assert (c = country) as -> by congruence.
    exists ref, info. repeat split; try assumption.
    now apply infoFromCode_Some in Hinfo as (r & _ & _ & ->).
Qed.

(** The entry of Bulgaria, to which no gdp row of [chile_only] resolves, is
    left as it was built; the entry of Chile is the country that is
    published. *)
Lemma registry_after_join_witness :
  exists result info info' chile,
    loadData chile_only = Ok result /\
    infoFromCode (readCountryInfoDB [CHL; BGR]) !! "BGR" = Some info /\
    store result !! "BGR" = Some info' /\
    info' = info /\
    getCountries result = [chile] /\
    store result !! "CHL" = Some chile.
Proof.
  destruct (loadData chile_only) as [result|] eqn:Hload; [|vm_compute in Hload; discriminate].
  assert (exists chile, getCountries result = [chile]) as [chile Hchile].
  { revert Hload. vm_compute. intros [= <-]. eauto. }
  destruct (registry_after_join chile_only result Hload) as (_ & Hentries & Hpublished).
  destruct (Hentries "BGR" (infoOf BGR)) as (info' & Hres & _ & _ & _ & _ & Hsame & _);
    [vm_compute; reflexivity |].
  destruct (Hpublished chile) as (code & info & (row & Hrow & Hcode) & _ & Hstore & _);
    [rewrite Hchile; apply list_elem_of_here |].
  apply list_elem_of_singleton in Hrow as ->.
  assert (code = "CHL") as ->
    by (vm_compute in Hcode; injection Hcode as Hcode; symmetry; exact Hcode).
  exists result, (infoOf BGR), info', chile.
  split; [reflexivity |]. split; [vm_compute; reflexivity |]. split; [assumption |].
  split; [|split; [exact Hchile | exact Hstore]].
  apply Hsame. intros row ->%list_elem_of_singleton. vm_compute. discriminate.
Defined.

(** C9 as the claim words it fails: the registry entry of Chile has no
    [stats] when the registry is built and has [stats] after the join. *)
Lemma registry_after_join_counterexample :
  exists result info info',
    loadData chile_only = Ok result /\
    infoFromCode (readCountryInfoDB (countries_json chile_only)) !! "CHL" = Some info /\
    store result !! "CHL" = Some info' /\
    Country.stats info = None /\
    is_Some (Country.stats info') /\
    info' <> info.
Proof.
  eexists _, _, _.
  split; [vm_compute; reflexivity |].
  split; [vm_compute; reflexivity |].
  split; [vm_compute; reflexivity |].
  split; [reflexivity |].
  split; [eexists; reflexivity | discriminate].
Qed.

(** *** C4 *)


(** Two records of the reference database with the same common name. *)
Definition twins : Resources :=
  {| countries_json :=
       [ {| Json.cca3 := "AAA";
            Json.name := {| Json.common := "Xland"; Json.official := "Xland A" |};
            Json.native := []; Json.altSpellings := []; Json.region := "North" |};
         {| Json.cca3 := "BBB";
            Json.name := {| Json.common := "Xland"; Json.official := "Xland B" |};
            Json.native := []; Json.altSpellings := []; Json.region := "South" |} ];
     csv := fun resourceID =>
       match resourceID with
       | ResourceID.gdp => [yearly "Xland A" "1"; yearly "Xland B" "2"]
       | _ => []
       end |}.

(** Chile and Bulgaria in the gdp source, Chile alone in the combined
    inequality source, and Peru in that source only. *)
Definition chile_bulgaria : Resources :=
  {| countries_json :=
       [CHL; BGR;
        {| Json.cca3 := "PER";
           Json.name := {| Json.common := "Peru"; Json.official := "Republic of Peru" |};
           Json.native := []; Json.altSpellings := ["PE"]; Json.region := "Americas" |}];
     csv := fun resourceID =>
       match resourceID with
       | ResourceID.gdp => [yearly "Chile" "13000"; yearly " Bulgaria " "7000"]
       | ResourceID.ineq_comb => [yearly "Chile" "18.5"; yearly "Peru" "21.5"]
       | _ => []
       end |}.




(** In [twins] the registry entry AAA gets [stats], since a gdp row resolves
    to it, and is not published: the later row resolves to BBB, which has the
    same display name. *)
Example resolved_entry_not_published :
  exists result info,
    loadData twins = Ok result /\
    nameToCode (readCountryInfoDB (countries_json twins)) !! "Xland A" = Some "AAA" /\
    store result !! "AAA" = Some info /\
    is_Some (Country.stats info) /\
    Country.code <$> getCountries result = ["BBB"] /\
    Country.code <$> getCountry result (Country.name info) = Some "BBB".
Proof.
  eexists _, _.
  split; [vm_compute; reflexivity |].
  split; [vm_compute; reflexivity |].
  split; [vm_compute; reflexivity |].
  split; [eexists; reflexivity |].
  split; vm_compute; reflexivity.
Qed.

(** *** C10 *)

Lemma bind_fmap_keys {A B C : Type} (f : A -> B) (g : B -> list C) (l : list A) :
  (f <$> l) ≫= g = l ≫= fun x => g (f x).
Proof.
  induction l as [|x l IH]; [reflexivity |].
  cbn [fmap list_fmap]. now rewrite !bind_cons, IH.
Qed.

Lemma bind_pointwise {A B : Type} (f g : A -> list B) (l : list A) :
  (forall x, x ∈ l -> f x = g x) -> l ≫= f = l ≫= g.
Proof.
  induction l as [|x l IH]; intros Hfg; [reflexivity |].
  rewrite !bind_cons, Hfg, IH; [reflexivity | | apply list_elem_of_here].
  intros y Hy. now apply Hfg, list_elem_of_further.
Qed.

(** Every gdp value the published countries store, over countries and
    years. *)
Definition storedGdp (dataSource : DataSource) : list number :=
  getCountries dataSource ≫= fun country =>
    match Country.stats country with
    | Some stats => (fun entry => CountryStats.gdp entry.2) <$> stats
    | None => []
    end.

(** Chile with a gdp of 1234.5 and Bulgaria with a gdp of 99.75 in every
    year. *)
Definition fractional_gdp : Resources :=
  {| countries_json := [CHL; BGR];
     csv := fun resourceID =>
       match resourceID with
       | ResourceID.gdp => [yearly "Chile" "1234.5"; yearly "Bulgaria" "99.75"]
       | _ => []
       end |}.

(** C10: after a load that succeeds the gdp Limit is the fresh Limit expanded
    with [parseFloat] of every year's field of every gdp row, in order, while
    the gdp a published country stores for a year is [parseInt] of the field
    of a gdp row; and there is an input, [fractional_gdp], whose gdp bounds
    99.75 and 1234.5 are not whole numbers and equal none of the stored gdp
    values. *)
Theorem gdp_limit_of_float_parse :
  (forall resources result,
     loadData resources = Ok result ->
     StatLimits.gdp (getStatLimits result)
     = expandAll
         (loaded resources ResourceID.gdp ≫= fun entry =>
            (fun year => parseFloat (row_get entry.2 year)) <$> years)
         Limit.new /\
     forall country, country ∈ getCountries result ->
       exists name row stats,
         (name, row) ∈ loaded resources ResourceID.gdp /\
         Country.stats country = Some stats /\
         forall year, year ∈ years ->
           CountryStats.gdp <$> JSMap.get year stats
           = Some (parseInt (row_get row year))) /\
  (exists result,
     loadData fractional_gdp = Ok result /\
     let limit := StatLimits.gdp (getStatLimits result) in
     Limit.min limit = parseFloat (JSString "99.75") /\
     Limit.max limit = parseFloat (JSString "1234.5") /\
     SFltb (ofZ 99) (Limit.min limit) = true /\
     SFltb (Limit.min limit) (ofZ 100) = true /\
     SFltb (ofZ 1234) (Limit.max limit) = true /\
     SFltb (Limit.max limit) (ofZ 1235) = true /\
     storedGdp result = replicate 8 (ofZ 1234) ++ replicate 8 (ofZ 99) /\
     forall g, g ∈ storedGdp result -> g <> Limit.min limit /\ g <> Limit.max limit).
Proof.
  split.
  - intros resources result Hload. split.
    + unfold getStatLimits. rewrite loadData_join in Hload.
      change (StatLimits.gdp (dataLimits result))
        with (StatLimits.get ResourceID.gdp (dataLimits result)).
      rewrite (join_limits _ _ _ _ _ Hload ResourceID.gdp).
      cbn [dataLimits]. change (StatLimits.get ResourceID.gdp StatLimits.new) with Limit.new.
      f_equal. unfold anchorNames, JSMap.keys. rewrite bind_fmap_keys.
      apply bind_pointwise. intros [name row] Hin. cbn [fst snd].
      assert (name ∈ anchorNames resources) as Hname
        by (unfold anchorNames, JSMap.keys; now apply (list_elem_of_fmap_2 fst _ (name, row))).
      rewrite (anchorNames_trimmed _ _ Hname). unfold expanded.
      now rewrite (JSMapFacts.elem_get_Some name row _ (JSMapFacts.NoDup_keys_new _) Hin).
    + intros country Hin.
      destruct (published_stats _ _ _ Hload Hin) as (csvName & Hanchor & _ & Hstats).
      destruct (anchorNames_row _ _ Hanchor) as (row & Hrow & Hget).
      exists csvName, row, (countryStats (loaded resources) csvName).
      repeat split; try assumption.
      intros year Hyear. rewrite get_countryStats by assumption.
      cbn [fmap option_fmap option_map entryOf CountryStats.gdp]. unfold fetched.
      now rewrite Hget.
  - eexists. split; [vm_compute; reflexivity |].
    cbv zeta.
    repeat (split; [vm_compute; reflexivity |]).
    intros g Hg. vm_compute in Hg.
    repeat (apply elem_of_cons in Hg as [->|Hg]; [split; vm_compute; discriminate |]).
    inversion Hg.
Qed.

(** The general part at [fractional_gdp]. *)
Lemma gdp_limit_of_float_parse_witness :
  exists result,
    loadData fractional_gdp = Ok result /\
    StatLimits.gdp (getStatLimits result)
    = expandAll
        (loaded fractional_gdp ResourceID.gdp ≫= fun entry =>
           (fun year => parseFloat (row_get entry.2 year)) <$> years)
        Limit.new.
Proof.
  destruct (loadData fractional_gdp) as [result|] eqn:Hload;
    [|vm_compute in Hload; discriminate].
  exists result. split; [reflexivity |].
  exact (proj1 (proj1 gdp_limit_of_float_parse fractional_gdp result Hload)).
Defined.

(** *** C1 and C8: which source fills which field *)

(** The entry of a year, field by field, for any input: [life_expectancy] is
    read from the source [ineq_inc] and [income] from the source
    [ineq_life]. *)
Lemma stats_entry_as_read (resources : Resources) (result : DataSource) (country : Country) :
  loadData resources = Ok result ->
  country ∈ getCountries result ->
  exists csvName stats,
    csvName ∈ anchorNames resources /\
    Country.stats country = Some stats /\
    forall year, year ∈ years ->
      exists entry,
        JSMap.get year stats = Some entry /\
        let field := fetched (loaded resources) csvName in
        CountryStats.gdp entry = parseInt (field ResourceID.gdp year) /\
        CountryStats.combined (CountryStats.inequality entry)
          = parseFloat (field ResourceID.ineq_comb year) /\
        CountryStats.education (CountryStats.inequality entry)
          = parseFloat (field ResourceID.ineq_edu year) /\
        CountryStats.life_expectancy (CountryStats.inequality entry)
          = parseFloat (field ResourceID.ineq_inc year) /\
        CountryStats.income (CountryStats.inequality entry)
          = parseFloat (field ResourceID.ineq_life year).
Proof.
  intros Hload Hin.
  destruct (published_stats _ _ _ Hload Hin) as (csvName & Hanchor & _ & Hstats).
  exists csvName, (countryStats (loaded resources) csvName).
  repeat split; try assumption.
  intros year Hyear. exists (entryOf (loaded resources) csvName year).
  split; [now apply get_countryStats | repeat split].
Qed.

(** A source without a row for the country gives [null], which both parsers
    turn into NaN. *)
Lemma missing_row_sentinel (sources : ResourceID -> Map string DSVRowString)
    (countryName : string) (resourceID : ResourceID) (year : string) :
  JSMap.get countryName (sources resourceID) = None ->
  fetched sources countryName resourceID year = JSNull /\
  parseFloat (fetched sources countryName resourceID year) = NaN /\
  parseInt (fetched sources countryName resourceID year) = NaN.
Proof. intros Hnone. unfold fetched. rewrite Hnone. repeat split. Qed.

Example unparseable_fields :
  parseFloat (JSString "n/a") = NaN /\ parseFloat (JSString "") = NaN /\
  parseFloat (JSString "..") = NaN /\ parseFloat JSUndefined = NaN /\
  parseInt (JSString "n/a") = NaN /\ parseInt (JSString "") = NaN /\
  parseInt JSUndefined = NaN.
Proof. repeat split. Qed.

(** Chile with income inequality 1.5 and life expectancy inequality 2.5 in
    every year. *)
Definition income_and_life : Resources :=
  {| countries_json := [CHL];
     csv := fun resourceID =>
       match resourceID with
       | ResourceID.gdp => [yearly "Chile" "13000"]
       | ResourceID.ineq_inc => [yearly "Chile" "1.5"]
       | ResourceID.ineq_life => [yearly "Chile" "2.5"]
       | _ => []
       end |}.

(** C1 at [income_and_life]: in every year Chile's [income] is the number
    of the [ineq_life] source and its [life_expectancy] the number of the
    [ineq_inc] source. *)
Theorem income_life_expectancy_swapped :
  exists result country stats,
    loadData income_and_life = Ok result /\
    getCountries result = [country] /\
    Country.stats country = Some stats /\
    JSMap.keys stats = years /\
    forall year entry, (year, entry) ∈ stats ->
      CountryStats.income (CountryStats.inequality entry) = parseFloat (JSString "2.5") /\
      CountryStats.life_expectancy (CountryStats.inequality entry)
        = parseFloat (JSString "1.5") /\
      CountryStats.income (CountryStats.inequality entry) <> parseFloat (JSString "1.5").
Proof.
  eexists _, _, _.
  split; [vm_compute; reflexivity |].
  split; [vm_compute; reflexivity |].
  split; [reflexivity |].
  split; [reflexivity |].
  intros year entry Hin.
  repeat (apply elem_of_cons in Hin as [[= -> ->]|Hin];
          [repeat split; vm_compute; discriminate |]).
  inversion Hin.
Qed.

(** Chile without a row in the [ineq_inc] source and with 2.5 in the
    [ineq_life] source. *)
Definition income_missing : Resources :=
  {| countries_json := [CHL];
     csv := fun resourceID =>
       match resourceID with
       | ResourceID.gdp => [yearly "Chile" "13000"]
       | ResourceID.ineq_life => [yearly "Chile" "2.5"]
       | _ => []
       end |}.

(** C8 at [income_missing]: the load succeeds; the income source has no
    row for Chile, yet Chile's [income] is the finite 2.5 in every year, and
    the NaN is in [life_expectancy]. *)
Theorem missing_income_row_not_in_income :
  exists result country stats,
    loadData income_missing = Ok result /\
    JSMap.get "Chile" (loaded income_missing ResourceID.ineq_inc) = None /\
    getCountries result = [country] /\
    Country.stats country = Some stats /\
    JSMap.keys stats = years /\
    forall year entry, (year, entry) ∈ stats ->
      isFinite (CountryStats.income (CountryStats.inequality entry)) = true /\
      CountryStats.income (CountryStats.inequality entry) = parseFloat (JSString "2.5") /\
      CountryStats.life_expectancy (CountryStats.inequality entry) = NaN.
Proof.
  eexists _, _, _.
  split; [vm_compute; reflexivity |].
  split; [reflexivity |].
  split; [vm_compute; reflexivity |].
  split; [reflexivity |].
  split; [reflexivity |].
  intros year entry Hin.
  repeat (apply elem_of_cons in Hin as [[= -> ->]|Hin];
          [repeat split; vm_compute; reflexivity |]).
  inversion Hin.
Qed.


(** * Further properties of the code *)

(** ** The order of numbers *)
Module JSOrder.

(** A number that is not NaN as a triple of integers whose lexicographic
    order is the order [SFcompare] decides; the two zeros share a triple. *)
Definition key (x : number) : Z * Z * Z :=
  match x with
  | S754_infinity true => (-2, 0, 0)%Z
  | S754_finite true m e => (-1, - e, Zneg m)%Z
  | S754_zero _ | S754_nan => (0, 0, 0)%Z
  | S754_finite false m e => (1, e, Zpos m)%Z
  | S754_infinity false => (2, 0, 0)%Z
  end.

Definition lex (a b : Z * Z * Z) : comparison :=
  match (a.1.1 ?= b.1.1)%Z with
  | Eq => match (a.1.2 ?= b.1.2)%Z with
          | Eq => (a.2 ?= b.2)%Z
          | c => c
          end
  | c => c
  end.

Definition lex_le (a b : Z * Z * Z) : Prop :=
  (a.1.1 < b.1.1 \/
   (a.1.1 = b.1.1 /\ (a.1.2 < b.1.2 \/ (a.1.2 = b.1.2 /\ a.2 <= b.2))))%Z.

Definition le (x y : number) : Prop := SFleb x y = true.

Lemma SFcompare_key (x y : number) :
  x <> NaN -> y <> NaN -> SFcompare x y = Some (lex (key x) (key y)).
Proof.
  destruct x as [s1|s1| |s1 m1 e1], y as [s2|s2| |s2 m2 e2]; intros Hx Hy;
    try (exfalso; apply Hx; reflexivity); try (exfalso; apply Hy; reflexivity);
    try (now destruct s1); try (now destruct s2); try (now destruct s1, s2).
  unfold lex. simpl.
  change (Pos.compare_cont Eq m1 m2) with (Pos.compare m1 m2).
  destruct s1, s2; simpl; try reflexivity.
  rewrite Z.compare_opp, (Z.compare_antisym e1 e2).
  now destruct (e1 ?= e2)%Z.
Qed.

Lemma lex_le_spec (a b : Z * Z * Z) :
  lex_le a b <-> lex a b <> Gt.
Proof.
  destruct a as [[a1 a2] a3], b as [[b1 b2] b3]. unfold lex_le, lex. simpl.
  destruct (Z.compare_spec a1 b1), (Z.compare_spec a2 b2), (Z.compare_spec a3 b3);
    split; intros Hle; try discriminate; try lia; try (exfalso; now apply Hle).
Qed.

Lemma le_key (x y : number) :
  x <> NaN -> y <> NaN -> le x y <-> lex_le (key x) (key y).
Proof.
  intros Hx Hy. unfold le, SFleb. rewrite (SFcompare_key x y Hx Hy), lex_le_spec.
  destruct (lex (key x) (key y)); split; congruence.
Qed.

Lemma le_not_NaN (x y : number) : le x y -> x <> NaN /\ y <> NaN.
Proof.
  unfold le, SFleb. intros H. split; intros ->; [discriminate |].
  now destruct x.
Qed.

Lemma le_refl (x : number) : x <> NaN -> le x x.
Proof.
  intros Hx. apply le_key; try assumption.
  destruct (key x) as [[a b] c]. unfold lex_le. simpl. lia.
Qed.

Lemma le_trans (x y z : number) : le x y -> le y z -> le x z.
Proof.
  intros Hxy Hyz.
  destruct (le_not_NaN _ _ Hxy) as [Hx Hy], (le_not_NaN _ _ Hyz) as [_ Hz].
  apply le_key in Hxy, Hyz; try assumption. apply le_key; try assumption.
  destruct (key x) as [[a1 a2] a3], (key y) as [[b1 b2] b3], (key z) as [[c1 c2] c3].
  unfold lex_le in *. simpl in *. lia.
Qed.

Lemma le_total (x y : number) : x <> NaN -> y <> NaN -> le x y \/ le y x.
Proof.
  intros Hx Hy. rewrite !le_key by assumption.
  destruct (key x) as [[a1 a2] a3], (key y) as [[b1 b2] b3].
  unfold lex_le. simpl. lia.
Qed.

Lemma le_of_compare (x y : number) (c : comparison) :
  SFcompare x y = Some c -> c <> Gt -> le x y.
Proof. unfold le, SFleb. intros -> Hc. now destruct c. Qed.

(** [Math.min] returns one of its arguments, below both; [Math.max] one
    above both. *)
Lemma Math_min_le (x y : number) :
  x <> NaN -> y <> NaN ->
  (Math_min x y = x \/ Math_min x y = y) /\ le (Math_min x y) x /\ le (Math_min x y) y.
Proof.
  intros Hx Hy.
  pose proof (JSNumberFacts.SFcompare_antisym x y) as Hanti.
  pose proof (le_refl x Hx) as Hxx. pose proof (le_refl y Hy) as Hyy.
  pose proof (SFcompare_key x y Hx Hy) as Hc. rewrite Hc in Hanti.
  unfold Math_min. rewrite Hc.
  destruct (lex (key x) (key y)); simpl in Hanti.
  - pose proof (le_of_compare _ _ _ Hc ltac:(discriminate)).
    pose proof (le_of_compare _ _ _ Hanti ltac:(discriminate)).
    destruct (isNegZero x); auto.
  - pose proof (le_of_compare _ _ _ Hc ltac:(discriminate)). auto.
  - pose proof (le_of_compare _ _ _ Hanti ltac:(discriminate)). auto.
Qed.

Lemma Math_max_le (x y : number) :
  x <> NaN -> y <> NaN ->
  (Math_max x y = x \/ Math_max x y = y) /\ le x (Math_max x y) /\ le y (Math_max x y).
Proof.
  intros Hx Hy.
  pose proof (JSNumberFacts.SFcompare_antisym x y) as Hanti.
  pose proof (le_refl x Hx) as Hxx. pose proof (le_refl y Hy) as Hyy.
  pose proof (SFcompare_key x y Hx Hy) as Hc. rewrite Hc in Hanti.
  unfold Math_max. rewrite Hc.
  destruct (lex (key x) (key y)); simpl in Hanti.
  - pose proof (le_of_compare _ _ _ Hc ltac:(discriminate)).
    pose proof (le_of_compare _ _ _ Hanti ltac:(discriminate)).
    destruct (isNegZero x); auto.
  - pose proof (le_of_compare _ _ _ Hc ltac:(discriminate)). auto.
  - pose proof (le_of_compare _ _ _ Hanti ltac:(discriminate)). auto.
Qed.

Lemma isFinite_not_NaN (x : number) : isFinite x = true -> x <> NaN.
Proof. intros H ->. discriminate. Qed.

End JSOrder.

(** ** The Limit tracker: what the bounds are *)
Section limit_facts.
Import JSOrder.

Lemma Math_min_POSITIVE_INFINITY (v : number) :
  isFinite v = true -> Math_min v POSITIVE_INFINITY = v.
Proof. now destruct v as [s|s| |s m e]. Qed.

Lemma Math_max_NEGATIVE_INFINITY (v : number) :
  isFinite v = true -> Math_max v NEGATIVE_INFINITY = v.
Proof. now destruct v as [s|s| |s m e]. Qed.

(** A Limit that has seen the numbers [seen]: fresh when none of them was
    finite, and else bounded by two of them that enclose every finite one. *)
Definition tracked (seen : list number) (limit : Limit) : Prop :=
  (Forall (fun v => isFinite v = false) seen /\ limit = Limit.new) \/
  (Limit.min limit ∈ seen /\ Limit.max limit ∈ seen /\
   isFinite (Limit.min limit) = true /\ isFinite (Limit.max limit) = true /\
   le (Limit.min limit) (Limit.max limit) /\
   forall v, v ∈ seen -> isFinite v = true ->
             le (Limit.min limit) v /\ le v (Limit.max limit)).

Lemma tracked_expandRange (seen : list number) (limit : Limit) (v : number) :
  tracked seen limit -> tracked (seen ++ [v]) (Limit.expandRange v limit).
Proof.
  intros Htracked. unfold Limit.expandRange.
  destruct (isFinite v) eqn:Hv; simpl.
  - pose proof (isFinite_not_NaN v Hv) as Hnan.
    pose proof (le_refl v Hnan) as Hvv.
    assert (v ∈ seen ++ [v]) as Hlast
      by (apply elem_of_app; right; apply list_elem_of_here).
    right. destruct Htracked as [[Hnone Hnew]|(Hmin & Hmax & Hfmin & Hfmax & Hle & Hall)].
    + subst limit. simpl.
      rewrite Math_min_POSITIVE_INFINITY, Math_max_NEGATIVE_INFINITY by assumption.
      split; [assumption |]. split; [assumption |]. split; [assumption |].
      split; [assumption |]. split; [assumption |].
      intros w Hin Hw. apply elem_of_app in Hin as [Hin | Hin].
      * rewrite Forall_forall in Hnone. rewrite (Hnone _ Hin) in Hw. discriminate.
      * apply list_elem_of_singleton in Hin as ->. auto.
    + destruct (Math_min_le v (Limit.min limit) Hnan (isFinite_not_NaN _ Hfmin))
        as (Hmin' & Hminv & Hminmin).
      destruct (Math_max_le v (Limit.max limit) Hnan (isFinite_not_NaN _ Hfmax))
        as (Hmax' & Hmaxv & Hmaxmax).
      split; [|split; [|split; [|split; [|split]]]].
      * rewrite elem_of_app, list_elem_of_singleton. destruct Hmin' as [Heq | Heq]; rewrite Heq; auto.
      * rewrite elem_of_app, list_elem_of_singleton. destruct Hmax' as [Heq | Heq]; rewrite Heq; auto.
      * destruct Hmin' as [Heq | Heq]; rewrite Heq; assumption.
      * destruct Hmax' as [Heq | Heq]; rewrite Heq; assumption.
      * exact (le_trans _ _ _ Hminv Hmaxv).
      * intros w Hin Hw. apply elem_of_app in Hin as [Hin | Hin].
        -- destruct (Hall w Hin Hw). split; eapply le_trans; eauto.
        -- apply list_elem_of_singleton in Hin as ->. auto.
  - destruct Htracked as [[Hnone Hnew]|(Hmin & Hmax & Hfmin & Hfmax & Hle & Hall)].
    + left. split; [|assumption]. apply Forall_app. split; [assumption |].
      now apply Forall_singleton.
    + right.
      split; [apply elem_of_app; now left |]. split; [apply elem_of_app; now left |].
      split; [assumption |]. split; [assumption |]. split; [assumption |].
      intros w Hin Hw. apply elem_of_app in Hin as [Hin | Hin]; [now apply Hall |].
      apply list_elem_of_singleton in Hin as ->. congruence.
Qed.

Lemma tracked_expandAll (vs seen : list number) (limit : Limit) :
  tracked seen limit -> tracked (seen ++ vs) (expandAll vs limit).
Proof.
  revert seen limit; induction vs as [|v vs IH]; intros seen limit Htracked.
  - now rewrite app_nil_r.
  - change (expandAll (v :: vs) limit) with (expandAll vs (Limit.expandRange v limit)).
    rewrite (assoc_L (++) seen [v] vs : seen ++ v :: vs = (seen ++ [v]) ++ vs).
    now apply IH, tracked_expandRange.
Qed.

Lemma tracked_not_NaN (seen : list number) (limit : Limit) :
  tracked seen limit -> Limit.min limit <> NaN /\ Limit.max limit <> NaN.
Proof.
  intros [[_ Hnew]|(_ & _ & Hfmin & Hfmax & _)]; [subst limit; split; discriminate |].
  split; now apply isFinite_not_NaN.
Qed.
End limit_facts.

(** X1: a Limit that was fresh and then expanded with a list of numbers is
    still fresh when none of them is finite; otherwise its [min] and [max] are
    two of the finite numbers of the list, [min] is at most [max], and every
    finite number of the list lies between them. *)
Theorem limit_bounds_attained (values : list number) :
  let limit := expandAll values Limit.new in
  (Forall (fun v => isFinite v = false) values /\ limit = Limit.new) \/
  (Limit.min limit ∈ values /\ Limit.max limit ∈ values /\
   isFinite (Limit.min limit) = true /\ isFinite (Limit.max limit) = true /\
   JSOrder.le (Limit.min limit) (Limit.max limit) /\
   forall v, v ∈ values -> isFinite v = true ->
             JSOrder.le (Limit.min limit) v /\ JSOrder.le v (Limit.max limit)).
Proof.
  apply (tracked_expandAll values [] Limit.new).
  left. split; [apply Forall_nil_2 | reflexivity].
Qed.

(** X2: expanding a Limit further never narrows it: after more numbers the
    [min] is at most, and the [max] at least, what it was before. *)
Theorem limit_only_widens (before more : list number) :
  JSOrder.le (Limit.min (expandAll (before ++ more) Limit.new))
             (Limit.min (expandAll before Limit.new)) /\
  JSOrder.le (Limit.max (expandAll before Limit.new))
             (Limit.max (expandAll (before ++ more) Limit.new)).
Proof.
  rewrite expandAll_app.
  assert (tracked before (expandAll before Limit.new)) as Htracked.
  { apply (tracked_expandAll before [] Limit.new).
    left. split; [apply Forall_nil_2 | reflexivity]. }
  revert Htracked. generalize (expandAll before Limit.new) as limit.
  generalize before as seen.
  induction more as [|v more IH]; intros seen limit Htracked.
  - destruct (tracked_not_NaN _ _ Htracked). split; now apply JSOrder.le_refl.
  - change (expandAll (v :: more) limit) with (expandAll more (Limit.expandRange v limit)).
    destruct (IH _ _ (tracked_expandRange _ _ v Htracked)) as [Hmin Hmax].
    destruct (tracked_not_NaN _ _ Htracked) as [Hnmin Hnmax].
    unfold Limit.expandRange in *. destruct (isFinite v) eqn:Hv; simpl in *; [|auto].
    pose proof (JSOrder.isFinite_not_NaN v Hv) as Hnan.
    destruct (JSOrder.Math_min_le v (Limit.min limit) Hnan Hnmin) as (_ & _ & Hle1).
    destruct (JSOrder.Math_max_le v (Limit.max limit) Hnan Hnmax) as (_ & _ & Hle2).
    split; eapply JSOrder.le_trans; eauto.
Qed.

(** ** The Limit tracker: the order of the numbers does not matter *)
Module JSMinMax.
Import JSOrder.

(** [key] with the negative zero below the positive one: the order in which
    [Math.min] and [Math.max] choose. *)
Definition rkey (x : number) : Z * Z * Z :=
  match x with
  | S754_zero true => (0, 0, -1)%Z
  | _ => key x
  end.

Lemma rkey_inj (x y : number) : x <> NaN -> y <> NaN -> rkey x = rkey y -> x = y.
Proof.
  destruct x as [s1|s1| |s1 m1 e1], y as [s2|s2| |s2 m2 e2]; intros Hx Hy;
    try (exfalso; apply Hx; reflexivity); try (exfalso; apply Hy; reflexivity);
    destruct s1, s2; simpl; intros Heq; try discriminate; try reflexivity;
    injection Heq as He Hm; f_equal; lia.
Qed.

#[local] Instance lex_le_dec (a b : Z * Z * Z) : Decision (lex_le a b).
Proof. unfold lex_le. apply _. Defined.

Lemma Math_min_rkey (x y : number) :
  x <> NaN -> y <> NaN ->
  Math_min x y = if decide (lex_le (rkey x) (rkey y)) then x else y.
Proof.
  intros Hx Hy. unfold Math_min.
  pose proof (SFcompare_key x y Hx Hy) as Hc. rewrite Hc.
  destruct (lex (key x) (key y)) eqn:Hlex.
  - apply JSNumberFacts.SFcompare_Eq in Hc as [->|(s1 & s2 & -> & ->)].
    + now destruct (isNegZero y), (decide _).
    + destruct s1, s2; reflexivity.
  - assert (lex_le (rkey x) (rkey y)) as Hle.
    { destruct x as [[]|[]| |[] m1 e1], y as [[]|[]| |[] m2 e2];
        try discriminate; try (exfalso; apply Hx; reflexivity);
        try (exfalso; apply Hy; reflexivity);
        try (unfold lex_le; simpl; lia);
        apply lex_le_spec; unfold rkey; rewrite Hlex; discriminate. }
    now destruct (decide _).
  - assert (~ lex_le (rkey x) (rkey y)) as Hle.
    { destruct x as [[]|[]| |[] m1 e1], y as [[]|[]| |[] m2 e2];
        try discriminate; try (exfalso; apply Hx; reflexivity);
        try (exfalso; apply Hy; reflexivity);
        try (unfold lex_le; simpl; lia);
        rewrite lex_le_spec; unfold rkey; rewrite Hlex; auto. }
    now destruct (decide _).
Qed.

Lemma Math_max_rkey (x y : number) :
  x <> NaN -> y <> NaN ->
  Math_max x y = if decide (lex_le (rkey y) (rkey x)) then x else y.
Proof.
  intros Hx Hy. unfold Math_max.
  pose proof (SFcompare_key x y Hx Hy) as Hc. rewrite Hc.
  destruct (lex (key x) (key y)) eqn:Hlex.
  - apply JSNumberFacts.SFcompare_Eq in Hc as [->|(s1 & s2 & -> & ->)].
    + now destruct (isNegZero y), (decide _).
    + destruct s1, s2; reflexivity.
  - assert (~ lex_le (rkey y) (rkey x)) as Hle.
    { pose proof (SFcompare_key y x Hy Hx) as Hc'.
      rewrite JSNumberFacts.SFcompare_antisym, Hc in Hc'. simpl in Hc'.
      injection Hc' as Hlex'. symmetry in Hlex'.
      destruct x as [[]|[]| |[] m1 e1], y as [[]|[]| |[] m2 e2];
        try discriminate; try (exfalso; apply Hx; reflexivity);
        try (exfalso; apply Hy; reflexivity);
        try (unfold lex_le; simpl; lia);
        rewrite lex_le_spec; unfold rkey; rewrite Hlex'; auto. }
    now destruct (decide _).
  - assert (lex_le (rkey y) (rkey x)) as Hle.
    { pose proof (SFcompare_key y x Hy Hx) as Hc'.
      rewrite JSNumberFacts.SFcompare_antisym, Hc in Hc'. simpl in Hc'.
      injection Hc' as Hlex'. symmetry in Hlex'.
      destruct x as [[]|[]| |[] m1 e1], y as [[]|[]| |[] m2 e2];
        try discriminate; try (exfalso; apply Hx; reflexivity);
        try (exfalso; apply Hy; reflexivity);
        try (unfold lex_le; simpl; lia);
        apply lex_le_spec; unfold rkey; rewrite Hlex'; discriminate. }
    now destruct (decide _).
Qed.

Lemma NaN_dec (x : number) : {x = NaN} + {x <> NaN}.
Proof. destruct x; [right | right | left | right]; try discriminate; reflexivity. Defined.

Lemma Math_min_NaN_r (x : number) : Math_min x NaN = NaN.
Proof. now destruct x. Qed.

Lemma Math_max_NaN_r (x : number) : Math_max x NaN = NaN.
Proof. now destruct x. Qed.

Ltac order_cases a b m :=
  repeat case_decide; try reflexivity;
  apply rkey_inj; try assumption;
  set (ka := rkey a) in *; set (kb := rkey b) in *; set (km := rkey m) in *;
  clearbody ka kb km;
  destruct ka as [[? ?] ?], kb as [[? ?] ?], km as [[? ?] ?];
  unfold lex_le in *; simpl in *; repeat f_equal; lia.

Lemma Math_min_left_comm (a b m : number) :
  a <> NaN -> b <> NaN ->
  Math_min a (Math_min b m) = Math_min b (Math_min a m).
Proof.
  intros Ha Hb.
  destruct (NaN_dec m) as [->|Hm]; [now rewrite !Math_min_NaN_r |].
  rewrite (Math_min_rkey b m), (Math_min_rkey a m) by assumption.
  destruct (decide (lex_le (rkey b) (rkey m))), (decide (lex_le (rkey a) (rkey m)));
    rewrite !Math_min_rkey by assumption; order_cases a b m.
Qed.

Lemma Math_max_left_comm (a b m : number) :
  a <> NaN -> b <> NaN ->
  Math_max a (Math_max b m) = Math_max b (Math_max a m).
Proof.
  intros Ha Hb.
  destruct (NaN_dec m) as [->|Hm]; [now rewrite !Math_max_NaN_r |].
  rewrite (Math_max_rkey b m), (Math_max_rkey a m) by assumption.
  destruct (decide (lex_le (rkey m) (rkey b))), (decide (lex_le (rkey m) (rkey a)));
    rewrite !Math_max_rkey by assumption; order_cases a b m.
Qed.

End JSMinMax.

Lemma expandRange_comm (a b : number) (limit : Limit) :
  Limit.expandRange a (Limit.expandRange b limit)
  = Limit.expandRange b (Limit.expandRange a limit).
Proof.
  unfold Limit.expandRange.
  destruct (isFinite a) eqn:Ha, (isFinite b) eqn:Hb; simpl;
    rewrite ?Ha, ?Hb; simpl; try reflexivity.
  f_equal.
  - apply JSMinMax.Math_min_left_comm; now apply JSOrder.isFinite_not_NaN.
  - apply JSMinMax.Math_max_left_comm; now apply JSOrder.isFinite_not_NaN.
Qed.

(** X3: the Limit reached by expanding with a list of numbers does not
    depend on the order of the list: lists that are permutations of each other
    take any Limit to the same Limit. *)
Theorem limit_order_independent (values values' : list number) (limit : Limit) :
  values ≡ₚ values' -> expandAll values limit = expandAll values' limit.
Proof.
  intros Hperm. revert limit.
  induction Hperm as [|v vs vs' _ IH|a b vs|vs vs' vs'' _ IH1 _ IH2]; intros limit.
  - reflexivity.
  - apply IH.
  - unfold expandAll. simpl. now rewrite expandRange_comm.
  - now rewrite IH1.
Qed.

Lemma limit_order_independent_witness :
  expandAll [ofZ 3; NaN; ofZ 1; ofZ 4] Limit.new
  = expandAll [ofZ 4; ofZ 1; ofZ 3; NaN] Limit.new.
Proof.
  apply limit_order_independent.
  apply (Permutation_trans (l' := [ofZ 4; ofZ 3; NaN; ofZ 1])).
  - symmetry. apply (Permutation_cons_append [ofZ 3; NaN; ofZ 1] (ofZ 4)).
  - apply perm_skip. symmetry. apply (Permutation_cons_append [ofZ 3; NaN] (ofZ 1)).
Defined.

(** ** When [loadData] succeeds and what it reports *)
Section join_outcome.
Variable index : gmap string string.
Variable sources : ResourceID -> Map string DSVRowString.

Lemma join_succeeds (names : list string) (dataSource : DataSource) :
  (forall name code, index !! name = Some code -> is_Some (store dataSource !! code)) ->
  (forall name, name ∈ names -> is_Some (index !! JSString.trim name)) ->
  exists result, join index sources names dataSource = Ok result.
Proof.
  revert dataSource; induction names as [|n names IH]; intros st Hreg Hres.
  - simpl. eauto.
  - rewrite join_cons.
    destruct (Hres n) as [code Hcode]; [apply list_elem_of_here |]. rewrite Hcode.
    destruct (Hreg _ _ Hcode) as [info Hinfo]. rewrite Hinfo.
    apply IH.
    + intros name' code' Hres'. simpl.
      destruct (decide (code = code')) as [<-|Hne].
      * rewrite lookup_insert_eq. eauto.
      * rewrite lookup_insert_ne by assumption. eauto.
    + intros name Hin. now apply Hres, list_elem_of_further.
Qed.

Lemma join_first_unresolved (before after : list string) (name : string)
    (dataSource : DataSource) :
  (forall name code, index !! name = Some code -> is_Some (store dataSource !! code)) ->
  (forall earlier, earlier ∈ before -> is_Some (index !! JSString.trim earlier)) ->
  index !! JSString.trim name = None ->
  join index sources (before ++ name :: after) dataSource
  = Throw ("No country info for " +:+ JSString.trim name).
Proof.
  revert dataSource; induction before as [|n before IH]; intros st Hreg Hres Hnone.
  - simpl app. rewrite join_cons. now rewrite Hnone.
  - simpl app. rewrite join_cons.
    destruct (Hres n) as [code Hcode]; [apply list_elem_of_here |]. rewrite Hcode.
    destruct (Hreg _ _ Hcode) as [info Hinfo]. rewrite Hinfo.
    apply IH; [| |assumption].
    + intros name' code' Hres'. simpl.
      destruct (decide (code = code')) as [<-|Hne].
      * rewrite lookup_insert_eq. eauto.
      * rewrite lookup_insert_ne by assumption. eauto.
    + intros earlier Hin. now apply Hres, list_elem_of_further.
Qed.

(** The keys of [data] stay distinct. *)
Lemma join_NoDup_keys (names : list string) (dataSource result : DataSource) :
  join index sources names dataSource = Ok result ->
  NoDup (JSMap.keys (data dataSource)) -> NoDup (JSMap.keys (data result)).
Proof.
  revert dataSource; induction names as [|n names IH]; intros st Hjoin Hnd.
  - now injection Hjoin as <-.
  - apply join_cons_Ok in Hjoin as (code & info & _ & _ & Hjoin).
    apply (IH _ Hjoin). simpl. now apply JSMapFacts.NoDup_keys_set.
Qed.

End join_outcome.

(** X4: [loadData] succeeds exactly when the trimmed name of every gdp row
    has an entry in the name resolution index; nothing else makes it throw (a
    code the index resolves to always has its registry entry). *)
Theorem loadData_succeeds_iff (resources : Resources) :
  (forall row, row ∈ csv resources ResourceID.gdp ->
     is_Some (nameToCode (readCountryInfoDB (countries_json resources))
                !! JSString.trim (Country_ row)))
  <-> exists result, loadData resources = Ok result.
Proof.
  rewrite loadData_join. split.
  - intros Hres. apply join_succeeds.
    + intros name code Hcode. cbn [store]. now apply (resolved_code_registered _ name).
    + intros name (row & Hrow & ->)%elem_of_anchorNames.
      rewrite JSStringFacts.trim_idempotent. now apply Hres.
  - intros [result Hjoin] row Hrow.
    destruct (join_resolves _ _ _ _ _ Hjoin (JSString.trim (Country_ row)))
      as (code & _ & Hcode & _).
    + apply elem_of_anchorNames. eauto.
    + rewrite JSStringFacts.trim_idempotent in Hcode. eauto.
Qed.

(** Two gdp rows without entry in the index, after one that has one. *)
Definition two_unresolved : Resources :=
  {| countries_json := [KOR];
     csv := fun resourceID =>
       match resourceID with
       | ResourceID.gdp =>
           [yearly "South Korea" "27000"; yearly "Atlantis " "1"; yearly "Republicland" "2"]
       | _ => []
       end |}.

(** X5: the error of [loadData] names the first name of the gdp source, in
    the order of its keys, that has no entry in the index; names after it are
    not looked at. *)
Theorem loadData_reports_first_unresolved (resources : Resources)
    (before after : list string) (name : string) :
  anchorNames resources = before ++ name :: after ->
  (forall earlier, earlier ∈ before ->
     is_Some (nameToCode (readCountryInfoDB (countries_json resources)) !! earlier)) ->
  nameToCode (readCountryInfoDB (countries_json resources)) !! name = None ->
  loadData resources = Throw ("No country info for " +:+ name).
Proof.
  intros Hnames Hres Hnone.
  assert (forall n, n ∈ before ++ name :: after -> JSString.trim n = n) as Htrim
    by (intros n Hin; apply (anchorNames_trimmed resources); now rewrite Hnames).
  assert (JSString.trim name = name) as Hname
    by (apply Htrim, elem_of_app; right; apply list_elem_of_here).
  rewrite loadData_join, Hnames.
  replace ("No country info for " +:+ name)
    with ("No country info for " +:+ JSString.trim name) by now rewrite Hname.
  apply join_first_unresolved.
  - intros n code Hcode. cbn [store]. now apply (resolved_code_registered _ n).
  - intros earlier Hin. rewrite Htrim by (apply elem_of_app; now left). now apply Hres.
  - now rewrite Hname.
Qed.

Lemma loadData_reports_first_unresolved_witness :
  loadData two_unresolved = Throw "No country info for Atlantis".
Proof.
  apply (loadData_reports_first_unresolved two_unresolved
           ["South Korea"] ["Republicland"] "Atlantis").
  - reflexivity.
  - intros earlier ->%list_elem_of_singleton. vm_compute. eauto.
  - vm_compute. reflexivity.
Defined.

(** ** [getCountry] and [getCountries] *)

(** Reading back entries that point to objects named by their key gives
    objects whose names are the keys, in order. *)
Lemma names_of_values (objects : gmap string Country) (entries : Map string string) :
  (forall key ref, (key, ref) ∈ entries ->
     exists country, objects !! ref = Some country /\ Country.name country = key) ->
  Country.name <$> omap (fun ref => objects !! ref) (JSMap.values entries)
  = JSMap.keys entries.
Proof.
  unfold JSMap.values, JSMap.keys.
  induction entries as [|[key ref] entries IH]; intros Hall; [reflexivity |].
  destruct (Hall key ref) as (c & Hc & Hname); [apply list_elem_of_here |].
  cbn [fmap list_fmap omap list_omap snd fst]. rewrite Hc. cbn [fmap list_fmap].
  rewrite Hname. f_equal. apply IH.
  intros key' ref' Hin. now apply Hall, list_elem_of_further.
Qed.

Lemma loadData_keys (resources : Resources) (result : DataSource) :
  loadData resources = Ok result ->
  NoDup (JSMap.keys (data result)) /\
  (forall key ref, (key, ref) ∈ data result ->
     exists country, store result !! ref = Some country /\ Country.name country = key).
Proof.
  intros Hload. split.
  - rewrite loadData_join in Hload.
    apply (join_NoDup_keys _ _ _ _ _ Hload). apply NoDup_nil_2.
  - intros key ref Hin.
    destruct (loadData_published _ _ Hload _ _ Hin) as (c & _ & Hc & Hname & _).
    eauto.
Qed.

(** X6: after a load that succeeds, the countries of [getCountries] have
    pairwise distinct display names; a country is in [getCountries] exactly when
    [getCountry] of its display name returns it; [getCountry] returns only
    countries with the name asked for, and it returns one exactly for the
    display names that the names of the gdp source resolve to. *)
Theorem getCountry_getCountries (resources : Resources) (result : DataSource) :
  loadData resources = Ok result ->
  let countries := readCountryInfoDB (countries_json resources) in
  NoDup (Country.name <$> getCountries result) /\
  (forall country,
     country ∈ getCountries result
     <-> getCountry result (Country.name country) = Some country) /\
  (forall name country,
     getCountry result name = Some country -> Country.name country = name) /\
  (forall name,
     is_Some (getCountry result name)
     <-> exists csvName, csvName ∈ anchorNames resources /\
           displayName (nameToCode countries) (infoFromCode countries) csvName
           = Some name).
Proof.
  intros Hload countries.
  destruct (loadData_keys _ _ Hload) as [Hnd Hpoint].
  assert (forall name country, getCountry result name = Some country ->
            exists ref, (name, ref) ∈ data result /\ store result !! ref = Some country)
    as Hget.
  { intros name country. unfold getCountry.
    destruct (JSMap.get name (data result)) as [ref|] eqn:Href; [|discriminate].
    simpl. intros Hc. exists ref. split; [now apply JSMapFacts.get_Some_elem | assumption]. }
  split; [|split; [|split]].
  - unfold getCountries. now rewrite names_of_values.
  - intros country. split.
    + intros (key & ref & Hin & Hc)%elem_of_getCountries.
      destruct (Hpoint _ _ Hin) as (c & Hc' & Hname).
      assert (c = country) as -> by congruence.
      unfold getCountry. rewrite Hname.
      rewrite (JSMapFacts.elem_get_Some key ref _ Hnd Hin). exact Hc.
    + intros (ref & Hin & Hc)%Hget. unfold getCountries, JSMap.values.
      apply list_elem_of_omap. exists ref. split; [|assumption].
      now apply (list_elem_of_fmap_2 snd _ (Country.name country, ref)).
  - intros name country (ref & Hin & Hc)%Hget.
    destruct (Hpoint _ _ Hin) as (c & Hc' & Hname). congruence.
  - intros name. rewrite loadData_join in Hload. fold countries in Hload. split.
    + intros [country (ref & Hin & Hc)%Hget].
      assert (name ∈ JSMap.keys (data result)) as Hkey
        by (unfold JSMap.keys; now apply (list_elem_of_fmap_2 fst _ (name, ref))).
      destruct (join_keys _ _ _ _ _ _ Hload Hkey) as [Hnil|Hex]; [inversion Hnil | exact Hex].
    + intros Hex.
      assert (name ∈ JSMap.keys (data result)) as Hkey
        by (apply (join_keys_complete _ _ _ _ _ _ Hload); now right).
      unfold getCountry.
      destruct (JSMap.get name (data result)) as [ref|] eqn:Href;
        [|now apply JSMapFacts.get_None in Href].
      apply JSMapFacts.get_Some_elem in Href.
      destruct (Hpoint _ _ Href) as (c & Hc & _). simpl. rewrite Hc. eauto.
Qed.

Lemma getCountry_getCountries_witness :
  exists result,
    loadData chile_bulgaria = Ok result /\
    NoDup (Country.name <$> getCountries result) /\
    is_Some (getCountry result "Bulgaria").
Proof.
  destruct (loadData chile_bulgaria) as [result|] eqn:Hload;
    [|vm_compute in Hload; discriminate].
  destruct (getCountry_getCountries chile_bulgaria result Hload) as (Hnd & _ & _ & Hsome).
  exists result. split; [reflexivity |]. split; [exact Hnd |].
  apply Hsome. exists "Bulgaria". split; vm_compute; [|reflexivity].
  apply list_elem_of_further, list_elem_of_here.
Defined.

(** X7: every country that [loadData] publishes is a record of the reference
    database: its [code], [name] and [region] are the [cca3], common name and
    region of a record, and the trimmed name of some gdp row resolves to its
    code; the join makes no country up and changes no identity field. *)
Theorem published_country_identity (resources : Resources) (result : DataSource)
    (country : Country) :
  loadData resources = Ok result ->
  country ∈ getCountries result ->
  exists record row,
    record ∈ countries_json resources /\
    Country.code country = Json.cca3 record /\
    Country.name country = Json.common (Json.name record) /\
    Country.region country = Json.region record /\
    row ∈ csv resources ResourceID.gdp /\
    nameToCode (readCountryInfoDB (countries_json resources))
      !! JSString.trim (Country_ row) = Some (Country.code country).
Proof.
  intros Hload Hin.
  destruct (published_stats _ _ _ Hload Hin) as (csvName & Hanchor & Hres & _).
  apply elem_of_anchorNames in Hanchor as (row & Hrow & ->).
  apply elem_of_getCountries in Hin as (key & ref & Hin & Hc).
  rewrite loadData_join in Hload.
  pose proof (join_store _ _ _ _ _ Hload ref) as Hstore. cbn [store] in Hstore.
  destruct (infoFromCode (readCountryInfoDB (countries_json resources)) !! ref)
    as [info|] eqn:Hinfo; [|congruence].
  destruct Hstore as (info' & Hinfo' & Hcode & Hname & Hregion & _).
  assert (info' = country) as -> by congruence.
  apply infoFromCode_Some in Hinfo as (record & Hrecord & <- & ->).
  exists record, row. repeat split; assumption.
Qed.

Lemma published_country_identity_witness :
  exists result country,
    loadData chile_only = Ok result /\
    country ∈ getCountries result /\
    Country.code country = "CHL" /\
    Country.region country = "Americas".
Proof.
  destruct (loadData chile_only) as [result|] eqn:Hload;
    [|vm_compute in Hload; discriminate].
  assert (exists country, getCountries result = [country]) as [country Hcountry].
  { revert Hload. vm_compute. intros [= <-]. eauto. }
  assert (country ∈ getCountries result) as Hin
    by (rewrite Hcountry; apply list_elem_of_here).
  destruct (published_country_identity chile_only result country Hload Hin)
    as (record & row & Hrecord & Hcode & _ & Hregion & Hrow & Hres).
  exists result, country. split; [reflexivity |]. split; [exact Hin |].
  apply list_elem_of_singleton in Hrow as ->.
  assert (Country.code country = "CHL") as Hchl
    by (vm_compute in Hres; injection Hres as Hres; symmetry; exact Hres).
  split; [exact Hchl |].
  apply elem_of_cons in Hrecord as [->|Hrecord]; [exact Hregion |].
  apply list_elem_of_singleton in Hrecord as ->.
  rewrite Hchl in Hcode. discriminate.
Defined.

(** ** The limits of [getStatLimits] *)

(** The numbers one source holds for a name of the gdp source: [parseFloat]
    of the field of every year, when the source has a row for the name. *)
Definition sourceNumbers (resources : Resources) (resourceID : ResourceID)
    (name : string) : list number :=
  match JSMap.get name (loaded resources resourceID) with
  | Some row => (fun year => parseFloat (row_get row year)) <$> years
  | None => []
  end.

(** X8: after a load that succeeds, each of the five Limits is the fresh Limit
    expanded with the numbers of its own source for the names of the gdp
    source, in their order; a row of another source whose name the gdp source
    does not have never widens a Limit. *)
Theorem statLimits_by_source (resources : Resources) (result : DataSource)
    (resourceID : ResourceID) :
  loadData resources = Ok result ->
  StatLimits.get resourceID (getStatLimits result)
  = expandAll (anchorNames resources ≫= sourceNumbers resources resourceID) Limit.new.
Proof.
  intros Hload. rewrite loadData_join in Hload. unfold getStatLimits.
  rewrite (join_limits _ _ _ _ _ Hload resourceID). cbn [dataLimits].
  assert (StatLimits.get resourceID StatLimits.new = Limit.new) as ->
    by now destruct resourceID.
  f_equal. apply bind_pointwise. intros name Hname.
  now rewrite (anchorNames_trimmed _ _ Hname).
Qed.

Lemma statLimits_by_source_witness :
  exists result,
    loadData chile_bulgaria = Ok result /\
    StatLimits.ineq_comb (getStatLimits result)
    = {| Limit.min := parseFloat (JSString "18.5");
         Limit.max := parseFloat (JSString "18.5") |}.
Proof.
  destruct (loadData chile_bulgaria) as [result|] eqn:Hload;
    [|vm_compute in Hload; discriminate].
  exists result. split; [reflexivity |].
  change (StatLimits.ineq_comb (getStatLimits result))
    with (StatLimits.get ResourceID.ineq_comb (getStatLimits result)).
  rewrite (statLimits_by_source chile_bulgaria result ResourceID.ineq_comb Hload).
  vm_compute. reflexivity.
Defined.

(** X9: after a load that succeeds, every finite number a source holds for a
    name of the gdp source lies within the Limit of that source; so for every
    published country and year a finite [inequality.combined] lies within the
    [ineq_comb] Limit and a finite [inequality.education] within the
    [ineq_edu] Limit. *)
Theorem statLimits_enclose (resources : Resources) (result : DataSource) :
  loadData resources = Ok result ->
  (forall resourceID name v,
     name ∈ anchorNames resources ->
     v ∈ sourceNumbers resources resourceID name ->
     isFinite v = true ->
     JSOrder.le (Limit.min (StatLimits.get resourceID (getStatLimits result))) v /\
     JSOrder.le v (Limit.max (StatLimits.get resourceID (getStatLimits result)))) /\
  (forall country stats year entry,
     country ∈ getCountries result ->
     Country.stats country = Some stats ->
     (year, entry) ∈ stats ->
     let combined := CountryStats.combined (CountryStats.inequality entry) in
     let education := CountryStats.education (CountryStats.inequality entry) in
     (isFinite combined = true ->
      JSOrder.le (Limit.min (StatLimits.ineq_comb (getStatLimits result))) combined /\
      JSOrder.le combined (Limit.max (StatLimits.ineq_comb (getStatLimits result)))) /\
     (isFinite education = true ->
      JSOrder.le (Limit.min (StatLimits.ineq_edu (getStatLimits result))) education /\
      JSOrder.le education (Limit.max (StatLimits.ineq_edu (getStatLimits result))))).
Proof.
  intros Hload.
  assert (forall resourceID name v,
     name ∈ anchorNames resources ->
     v ∈ sourceNumbers resources resourceID name ->
     isFinite v = true ->
     JSOrder.le (Limit.min (StatLimits.get resourceID (getStatLimits result))) v /\
     JSOrder.le v (Limit.max (StatLimits.get resourceID (getStatLimits result))))
    as Hsource.
  { intros resourceID name v Hname Hv Hfinite.
    pose proof Hload as Hjoin. rewrite loadData_join in Hjoin.
    unfold getStatLimits. rewrite (join_limits _ _ _ _ _ Hjoin resourceID).
    cbn [dataLimits].
    assert (StatLimits.get resourceID StatLimits.new = Limit.new) as ->
      by now destruct resourceID.
    set (numbers := anchorNames resources ≫=
                      fun name => expanded (loaded resources) (JSString.trim name) resourceID).
    assert (v ∈ numbers) as Hin.
    { apply list_elem_of_bind. exists name. split; [|assumption].
      now rewrite (anchorNames_trimmed _ _ Hname). }
    destruct (tracked_expandAll numbers [] Limit.new)
      as [[Hnone _]|(_ & _ & _ & _ & _ & Hall)];
      [left; split; [apply Forall_nil_2 | reflexivity] | |].
    - rewrite Forall_forall in Hnone. rewrite (Hnone _ Hin) in Hfinite. discriminate.
    - now apply Hall. }
  split; [exact Hsource |].
  intros country stats year entry Hcountry Hstats Hentry combined education.
  destruct (published_stats _ _ _ Hload Hcountry) as (csvName & Hanchor & _ & Hstats').
  assert (stats = countryStats (loaded resources) csvName) as -> by congruence.
  unfold countryStats in Hentry.
  apply list_elem_of_fmap in Hentry as (y & [= -> ->] & Hy).
  assert (forall resourceID,
            isFinite (parseFloat (fetched (loaded resources) csvName resourceID y)) = true ->
            parseFloat (fetched (loaded resources) csvName resourceID y)
            ∈ sourceNumbers resources resourceID csvName) as Hfetched.
  { intros resourceID. unfold fetched, sourceNumbers.
    destruct (JSMap.get csvName (loaded resources resourceID)) as [row|]; [|discriminate].
    intros _. apply list_elem_of_fmap. eauto. }
  split; intros Hfinite.
  - apply (Hsource ResourceID.ineq_comb csvName); [assumption | | assumption].
    apply (Hfetched ResourceID.ineq_comb). exact Hfinite.
  - apply (Hsource ResourceID.ineq_edu csvName); [assumption | | assumption].
    apply (Hfetched ResourceID.ineq_edu). exact Hfinite.
Qed.

Lemma statLimits_enclose_witness :
  exists result,
    loadData chile_bulgaria = Ok result /\
    JSOrder.le (Limit.min (StatLimits.gdp (getStatLimits result)))
               (parseFloat (JSString "13000")) /\
    JSOrder.le (parseFloat (JSString "13000"))
               (Limit.max (StatLimits.gdp (getStatLimits result))).
Proof.
  destruct (loadData chile_bulgaria) as [result|] eqn:Hload;
    [|vm_compute in Hload; discriminate].
  exists result. split; [reflexivity |].
  apply (proj1 (statLimits_enclose chile_bulgaria result Hload) ResourceID.gdp "Chile").
  - vm_compute. apply list_elem_of_here.
  - vm_compute. apply list_elem_of_here.
  - reflexivity.
Defined.

(** ** [csvLoader] *)
Section csvLoader_facts.
Context {K V : Type} `{EqDecision K}.

Lemma get_foldl_set_notin (entries : list (K * V)) (m : list (K * V)) (k : K) :
  k ∉ entries.*1 ->
  JSMap.get k (foldl (fun m e => JSMap.set e.1 e.2 m) m entries) = JSMap.get k m.
Proof.
  revert m; induction entries as [|[k0 v0] es IH]; intros m Hk; [reflexivity |].
  simpl in *. apply not_elem_of_cons in Hk as [Hne Hk].
  rewrite IH by assumption. rewrite JSMapFacts.get_set.
  now destruct (decide (k = k0)).
Qed.

Lemma get_new_last (before after : list (K * V)) (k : K) (v : V) :
  k ∉ after.*1 -> JSMap.get k (JSMap.new (before ++ (k, v) :: after)) = Some v.
Proof.
  intros Hk. unfold JSMap.new. rewrite foldl_app. simpl.
  rewrite get_foldl_set_notin by assumption.
  rewrite JSMapFacts.get_set. now destruct (decide (k = k)).
Qed.
End csvLoader_facts.

(** X10: in the map [csvLoader] builds, the trimmed [Country] of a row leads
    to that row unless a later row has the same trimmed name (the last row
    wins); a name is a key exactly when it is the trimmed [Country] of some
    row, so a name with white space around it is never a key; and no key
    occurs twice. *)
Theorem csvLoader_lookup (rows : list DSVRowString) :
  (forall before row after,
     rows = before ++ row :: after ->
     (forall later, later ∈ after ->
        JSString.trim (Country_ later) <> JSString.trim (Country_ row)) ->
     JSMap.get (JSString.trim (Country_ row)) (csvLoader rows) = Some row) /\
  (forall name,
     is_Some (JSMap.get name (csvLoader rows))
     <-> exists row, row ∈ rows /\ name = JSString.trim (Country_ row)) /\
  (forall name, is_Some (JSMap.get name (csvLoader rows)) -> JSString.trim name = name) /\
  NoDup (JSMap.keys (csvLoader rows)).
Proof.
  assert (forall name,
     is_Some (JSMap.get name (csvLoader rows))
     <-> exists row, row ∈ rows /\ name = JSString.trim (Country_ row)) as Hkeys.
  { intros name. rewrite <- not_eq_None_Some, JSMapFacts.get_None.
    assert (name ∈ JSMap.keys (csvLoader rows)
            <-> exists row, row ∈ rows /\ name = JSString.trim (Country_ row)) as <-.
    { unfold csvLoader.
      rewrite JSMapFacts.keys_new, <- list_fmap_compose, list_elem_of_fmap.
      split; intros (row & H1 & H2); exists row; auto. }
    split; [apply dec_stable | tauto]. }
  split; [|split; [exact Hkeys |split]].
  - intros before row after -> Hafter. unfold csvLoader.
    rewrite fmap_app, fmap_cons. apply get_new_last.
    rewrite <- list_fmap_compose. intros Hin.
    apply list_elem_of_fmap in Hin as (later & Heq & Hlater).
    apply (Hafter later Hlater). now symmetry.
  - intros name (row & _ & ->)%Hkeys. apply JSStringFacts.trim_idempotent.
  - apply JSMapFacts.NoDup_keys_new.
Qed.

Lemma csvLoader_lookup_witness :
  JSMap.get "Chile" (csvLoader [yearly " Chile" "1"; yearly "Peru" "2"; yearly "Chile " "3"])
  = Some (yearly "Chile " "3").
Proof.
  apply (proj1 (csvLoader_lookup _) [yearly " Chile" "1"; yearly "Peru" "2"]
           (yearly "Chile " "3") []).
  - reflexivity.
  - intros later Hin. inversion Hin.
Defined.

(** ** What [readCountryInfoDB] returns *)

Lemma last_split {A : Type} (P : A -> Prop) `{!forall x, Decision (P x)} (l : list A) :
  (exists x, x ∈ l /\ P x) ->
  exists before x after,
    l = before ++ x :: after /\ P x /\ forall y, y ∈ after -> ~ P y.
Proof.
  induction l as [|a l IH]; intros (x & Hin & Hx); [inversion Hin |].
  destruct (decide (Exists P l)) as [Hex|Hno].
  - apply Exists_exists in Hex. destruct (IH Hex) as (before & y & after & -> & Hy & Hafter).
    exists (a :: before), y, after. auto.
  - apply elem_of_cons in Hin as [->|Hin].
    + exists [], a, l. split; [reflexivity |]. split; [assumption |].
      intros y Hy HPy. apply Hno, Exists_exists. eauto.
    + exfalso. apply Hno, Exists_exists. eauto.
Qed.

Lemma infoFromCode_last (before after : list Json.country) (country : Json.country) :
  (forall later, later ∈ after -> Json.cca3 later <> Json.cca3 country) ->
  infoFromCode (readCountryInfoDB (before ++ country :: after)) !! Json.cca3 country
  = Some (infoOf country).
Proof.
  intros Hafter. rewrite infoFromCode_entries, fmap_app, fmap_cons.
  apply insert_all_last. intros info Hin.
  apply list_elem_of_fmap in Hin as (later & [= Hcode ->] & Hlater).
  exfalso. now apply (Hafter later).
Qed.

(** X11: the name resolution index has an entry for a name exactly when some
    record lists the name among its alternate names (common, official and
    native names, their order variations, alternate spellings, forced names),
    and the entry is the code of the last such record of the reference
    database. *)
Theorem nameToCode_last_record (srcJson : list Json.country) (name : string) :
  (forall code,
     nameToCode (readCountryInfoDB srcJson) !! name = Some code
     <-> exists before record after,
           srcJson = before ++ record :: after /\
           name ∈ alternateNames record /\
           Json.cca3 record = code /\
           forall later, later ∈ after -> name ∉ alternateNames later) /\
  (nameToCode (readCountryInfoDB srcJson) !! name = None
   <-> forall record, record ∈ srcJson -> name ∉ alternateNames record).
Proof.
  split; [|apply nameToCode_None].
  intros code. split.
  - intros Hcode.
    destruct (last_split (fun record => name ∈ alternateNames record) srcJson)
      as (before & record & after & -> & Hname & Hafter).
    { apply nameToCode_Some in Hcode as (record & Hin & Hname & _). eauto. }
    exists before, record, after. repeat split; try assumption.
    rewrite nameToCode_last in Hcode; [congruence | assumption |].
    intros later Hlater Hin. now destruct (Hafter later Hlater).
  - intros (before & record & after & -> & Hname & <- & Hafter).
    apply nameToCode_last; [assumption |].
    intros later Hlater Hin. now destruct (Hafter later Hlater).
Qed.

(** X12: the country info registry has an entry for a code exactly when some
    record has that [cca3]; the entry is built from the last such record: its
    [code] is the key, its [name] the record's common name, its [region] the
    record's region, and it has no [stats]. *)
Theorem infoFromCode_last_record (srcJson : list Json.country) (code : string) :
  (forall info,
     infoFromCode (readCountryInfoDB srcJson) !! code = Some info
     <-> exists before record after,
           srcJson = before ++ record :: after /\
           Json.cca3 record = code /\
           (forall later, later ∈ after -> Json.cca3 later <> code) /\
           info = {| Country.code := code;
                     Country.name := Json.common (Json.name record);
                     Country.region := Json.region record;
                     Country.stats := None |}) /\
  (infoFromCode (readCountryInfoDB srcJson) !! code = None
   <-> forall record, record ∈ srcJson -> Json.cca3 record <> code).
Proof.
  split.
  - intros info. split.
    + intros Hinfo.
      destruct (last_split (fun record => Json.cca3 record = code) srcJson)
        as (before & record & after & -> & Hcode & Hafter).
      { apply infoFromCode_Some in Hinfo as (record & Hin & Hcode & _). eauto. }
      exists before, record, after. subst code. repeat split; try assumption.
      rewrite infoFromCode_last in Hinfo by assumption. now injection Hinfo as <-.
    + intros (before & record & after & -> & <- & Hafter & ->).
      now apply infoFromCode_last.
  - rewrite eq_None_not_Some, infoFromCode_is_Some. split.
    + intros Hno record Hin Hcode. apply Hno. eauto.
    + intros Hno (record & Hin & Hcode). exact (Hno record Hin Hcode).
Qed.

(** ** [LineChart]: the points of a published country *)

(** An entry that [setCountry] keeps: its [gdp] and its [inequality.combined]
    are finite. *)
Definition plottable (entry : CountryStats) : Prop :=
  isFinite (CountryStats.gdp entry) = true /\
  isFinite (CountryStats.combined (CountryStats.inequality entry)) = true.

#[global] Instance plottable_dec (entry : CountryStats) : Decision (plottable entry).
Proof. unfold plottable. apply _. Defined.

Lemma setCountry_filter (country : Country) (entries : Map string CountryStats) :
  Country.stats country = Some entries ->
  LineChart.setCountry country
  = Some ((fun entry => {| LineChart.year := entry.1; LineChart.stats := entry.2 |})
            <$> filter (fun entry => plottable entry.2) entries).
Proof.
  intros Hstats. unfold LineChart.setCountry. rewrite Hstats. f_equal.
  enough (forall acc,
            foldl (fun data entry =>
                     if isFinite (CountryStats.gdp entry.2)
                        && isFinite (CountryStats.combined (CountryStats.inequality entry.2))
                     then data ++ [{| LineChart.year := entry.1; LineChart.stats := entry.2 |}]
                     else data) acc entries
            = acc ++ ((fun entry => {| LineChart.year := entry.1; LineChart.stats := entry.2 |})
                        <$> filter (fun entry => plottable entry.2) entries))
    as Hgen by apply (Hgen []).
  clear Hstats. induction entries as [|[y e] entries IH]; intros acc.
  - simpl. now rewrite app_nil_r.
  - cbn [foldl]. rewrite IH, filter_cons. cbn [fst snd].
    destruct (decide (plottable e)) as [[Hgdp Hcomb]|Hp].
    + rewrite Hgdp, Hcomb. cbn [andb fmap list_fmap fst snd]. now rewrite <- app_assoc.
    + destruct (isFinite (CountryStats.gdp e)) eqn:Hgdp,
               (isFinite (CountryStats.combined (CountryStats.inequality e))) eqn:Hcomb;
        try reflexivity.
      exfalso. apply Hp. now split.
Qed.

Lemma filter_years_entries {A : Type} (P : A -> Prop) `{!forall x, Decision (P x)}
    (g : string -> A) (ys : list string) :
  fst <$> filter (fun entry => P entry.2) ((fun y => (y, g y)) <$> ys)
  = filter (fun y => P (g y)) ys.
Proof.
  induction ys as [|y ys IH]; [reflexivity |].
  cbn [fmap list_fmap]. rewrite !filter_cons. cbn [fst snd].
  destruct (decide (P (g y))); cbn [fmap list_fmap fst]; now rewrite IH.
Qed.

(** The points of a published country are points of the years. *)
Lemma published_points_years (resources : Resources) (result : DataSource)
    (country : Country) (points : list LineChart.IYearStats)
    (point : LineChart.IYearStats) :
  loadData resources = Ok result ->
  country ∈ getCountries result ->
  LineChart.setCountry country = Some points ->
  point ∈ points ->
  LineChart.year point ∈ years.
Proof.
  intros Hload Hin Hset Hpoint.
  destruct (published_stats _ _ _ Hload Hin) as (csvName & _ & _ & Hstats).
  rewrite (setCountry_filter _ _ Hstats) in Hset. injection Hset as <-.
  apply list_elem_of_fmap in Hpoint as ([y e] & -> & Hentry).
  apply list_elem_of_filter in Hentry as [_ Hentry].
  unfold countryStats in Hentry.
  now apply list_elem_of_fmap in Hentry as (y' & [= -> ->] & Hy).
Qed.

(** X13: for a country that [loadData] published, [setCountry] keeps, in the
    order of the years, exactly the years for which the gdp field parses to a
    finite integer and the combined inequality field to a finite number; every
    point it keeps has both values finite, there are at most eight points, and
    a country without a row in the combined inequality source has none. *)
Theorem setCountry_of_published (resources : Resources) (result : DataSource)
    (country : Country) :
  loadData resources = Ok result ->
  country ∈ getCountries result ->
  exists csvName points,
    csvName ∈ anchorNames resources /\
    nameToCode (readCountryInfoDB (countries_json resources)) !! csvName
    = Some (Country.code country) /\
    LineChart.setCountry country = Some points /\
    LineChart.year <$> points
    = filter (fun year =>
                isFinite (parseInt (fetched (loaded resources) csvName
                                            ResourceID.gdp year)) = true /\
                isFinite (parseFloat (fetched (loaded resources) csvName
                                              ResourceID.ineq_comb year)) = true)
             years /\
    (forall point, point ∈ points ->
       isFinite (LineChart.y2Value point) = true /\
       isFinite (LineChart.yValue point) = true) /\
    LineChart.year <$> points `sublist_of` years /\
    length points <= 8 /\
    (JSMap.get csvName (loaded resources ResourceID.ineq_comb) = None -> points = []).
Proof.
  intros Hload Hin.
  destruct (published_stats _ _ _ Hload Hin) as (csvName & Hanchor & Hres & Hstats).
  pose proof (setCountry_filter _ _ Hstats) as Hset.
  eexists csvName, _. split; [assumption |]. split; [assumption |].
  split; [exact Hset |].
  assert (LineChart.year <$>
            ((fun entry => {| LineChart.year := entry.1; LineChart.stats := entry.2 |})
               <$> filter (fun entry => plottable entry.2)
                     (countryStats (loaded resources) csvName))
          = filter (fun year => plottable (entryOf (loaded resources) csvName year)) years)
    as Hyears.
  { rewrite <- list_fmap_compose. unfold countryStats.
    rewrite <- (filter_years_entries plottable (entryOf (loaded resources) csvName) years).
    apply list_fmap_ext. now intros ? [y e]. }
  split; [exact Hyears |].
  split; [|split; [|split]].
  - intros point (entry & -> & Hentry)%list_elem_of_fmap.
    apply list_elem_of_filter in Hentry as [Hp _]. exact Hp.
  - rewrite Hyears. apply sublist_filter.
  - rewrite <- (length_fmap LineChart.year), Hyears.
    etransitivity; [apply length_filter | reflexivity].
  - intros Hnone.
    assert (filter (fun entry => plottable entry.2)
              (countryStats (loaded resources) csvName) = []) as ->; [|reflexivity].
    destruct (filter (fun entry => plottable entry.2)
                (countryStats (loaded resources) csvName)) as [|[y e] rest] eqn:Hfilter;
      [reflexivity | exfalso].
    assert ((y, e) ∈ filter (fun entry => plottable entry.2)
                       (countryStats (loaded resources) csvName)) as Hentry
      by (rewrite Hfilter; apply list_elem_of_here).
    apply list_elem_of_filter in Hentry as [[_ Hcomb] Hentry].
    apply list_elem_of_fmap in Hentry as (y' & [= -> ->] & _).
    cbn [snd entryOf CountryStats.inequality CountryStats.combined] in Hcomb.
    unfold fetched in Hcomb. rewrite Hnone in Hcomb. discriminate.
Qed.

Lemma setCountry_of_published_witness :
  exists result country,
    loadData chile_only = Ok result /\
    country ∈ getCountries result /\
    LineChart.setCountry country = Some [].
Proof.
  destruct (loadData chile_only) as [result|] eqn:Hload;
    [|vm_compute in Hload; discriminate].
  assert (exists country, getCountries result = [country]) as [country Hcountry].
  { revert Hload. vm_compute. intros [= <-]. eauto. }
  assert (country ∈ getCountries result) as Hin
    by (rewrite Hcountry; apply list_elem_of_here).
  destruct (setCountry_of_published chile_only result country Hload Hin)
    as (csvName & points & _ & _ & Hset & _ & _ & _ & _ & Hempty).
  exists result, country. split; [reflexivity |]. split; [exact Hin |].
  rewrite Hset. f_equal. apply Hempty. reflexivity.
Defined.

(** X14: the domain of the x scale is 2009 to 2018, and every point that
    [setCountry] keeps of a country that [loadData] published has its [xValue]
    strictly inside it: no dot lies on an axis. *)
Theorem xValue_inside_xDomain (resources : Resources) (result : DataSource)
    (country : Country) (points : list LineChart.IYearStats)
    (point : LineChart.IYearStats) :
  loadData resources = Ok result ->
  country ∈ getCountries result ->
  LineChart.setCountry country = Some points ->
  point ∈ points ->
  LineChart.xDomain = (ofZ 2009, ofZ 2018) /\
  SFltb LineChart.xDomain.1 (LineChart.xValue point) = true /\
  SFltb (LineChart.xValue point) LineChart.xDomain.2 = true.
Proof.
  intros Hload Hin Hset Hpoint.
  pose proof (published_points_years _ _ _ _ _ Hload Hin Hset Hpoint) as Hyear.
  split; [reflexivity |].
  unfold LineChart.xValue.
  repeat (apply elem_of_cons in Hyear as [->|Hyear]; [split; reflexivity |]).
  inversion Hyear.
Qed.

Lemma xValue_inside_xDomain_witness :
  exists result country points point,
    loadData chile_bulgaria = Ok result /\
    country ∈ getCountries result /\
    LineChart.setCountry country = Some points /\
    point ∈ points /\
    SFltb LineChart.xDomain.1 (LineChart.xValue point) = true /\
    SFltb (LineChart.xValue point) LineChart.xDomain.2 = true.
Proof.
  destruct (loadData chile_bulgaria) as [result|] eqn:Hload;
    [|vm_compute in Hload; discriminate].
  assert (exists country rest point points,
            getCountries result = country :: rest /\
            LineChart.setCountry country = Some (point :: points))
    as (country & rest & point & points & Hcountry & Hset).
  { revert Hload. vm_compute. intros [= <-]. eexists _, _, _, _. split; reflexivity. }
  assert (country ∈ getCountries result) as Hin
    by (rewrite Hcountry; apply list_elem_of_here).
  exists result, country, (point :: points), point.
  split; [reflexivity |]. split; [exact Hin |]. split; [exact Hset |].
  split; [apply list_elem_of_here |].
  exact (proj2 (xValue_inside_xDomain chile_bulgaria result country (point :: points)
                  point Hload Hin Hset (list_elem_of_here _ _))).
Defined.

(** X15: when the container lacks the height attribute or the width attribute,
    the chart takes the default 960 by 500 for both, also for the attribute that
    is present, and its drawing area is 870 by 450. *)
Theorem size_without_attribute (heightAttr widthAttr : option string) :
  heightAttr = None \/ widthAttr = None ->
  LineChart.size heightAttr widthAttr = (ofZ 870, ofZ 450) /\
  LineChart.size heightAttr widthAttr = LineChart.size None None.
Proof.
  intros [-> | ->]; [|destruct heightAttr]; split; reflexivity.
Qed.

Lemma size_without_attribute_witness :
  LineChart.size None (Some "300") = (ofZ 870, ofZ 450).
Proof. apply (size_without_attribute None (Some "300")). now left. Defined.

(** ** [ScatterPlot]: the year of the animation *)
Section animation_facts.
Variable years : list string.

Lemma indexOf_lookup (a : list string) (i : nat) (y : string) :
  NoDup a -> a !! i = Some y -> ScatterPlot.indexOf a y = Some i.
Proof.
  revert i; induction a as [|x a IH]; intros i Hnd Hi; [discriminate |].
  apply NoDup_cons in Hnd as [Hx Hnd]. simpl.
  destruct i as [|i]; simpl in Hi.
  - injection Hi as ->. now destruct (decide (y = y)).
  - destruct (decide (y = x)) as [->|_].
    + exfalso. apply Hx. now apply (list_elem_of_lookup_2 _ i).
    + now rewrite (IH i Hnd Hi).
Qed.

Lemma indexOf_absent (a : list string) (y : string) :
  y ∉ a -> ScatterPlot.indexOf a y = None.
Proof.
  induction a as [|x a IH]; intros Hy; [reflexivity |].
  apply not_elem_of_cons in Hy as [Hne Hy]. simpl.
  destruct (decide (y = x)); [contradiction |]. now rewrite IH.
Qed.

Lemma following_lookup (i : nat) (y : string) :
  NoDup years -> years !! i = Some y ->
  ScatterPlot.following years (Some y) = years !! ((i + 1) mod length years)%nat.
Proof.
  intros Hnd Hi. unfold ScatterPlot.following. simpl.
  now rewrite (indexOf_lookup years i y Hnd Hi).
Qed.

(** The tuples [data] holds for the year at a position of [years], counted
    cyclically. *)
Definition tuplesAt (data : Map string (list ScatterPlot.DataTuple)) (i : nat)
    : option (list ScatterPlot.DataTuple) :=
  years !! (i mod length years)%nat ≫= fun key => JSMap.get key data.

Lemma animation_from (data : Map string (list ScatterPlot.DataTuple)) (n i : nat) :
  NoDup years -> (i < length years)%nat ->
  (forall j, (j < n)%nat -> is_Some (tuplesAt data (i + j))) ->
  ScatterPlot.animation years data n (years !! i)
  = (tuplesAt data <$> seq i n, years !! ((i + n) mod length years)%nat).
Proof.
  intros Hnd. revert i; induction n as [|n IH]; intros i Hi Hdata.
  - simpl. now rewrite Nat.add_0_r, Nat.mod_small.
  - destruct (lookup_lt_is_Some_2 years i Hi) as [y Hy].
    destruct (Hdata 0%nat) as [tuples Htuples]; [lia |].
    unfold tuplesAt in Htuples.
    rewrite Nat.add_0_r, (Nat.mod_small i), Hy in Htuples by assumption.
    cbn [mbind option_bind] in Htuples.
    cbn [ScatterPlot.animation]. unfold ScatterPlot.animateScatterPlot.
    rewrite Hy. cbn [mbind option_bind]. rewrite Htuples.
    rewrite (following_lookup i y Hnd Hy).
    rewrite IH.
    + cbn [seq fmap list_fmap]. f_equal.
      * f_equal; [unfold tuplesAt; now rewrite (Nat.mod_small i), Hy |].
        rewrite <- (Nat.add_0_r ((i + 1) mod length years)), <- (Nat.add_0_r (S i)).
        rewrite <- !fmap_add_seq, <- !list_fmap_compose.
        apply list_fmap_ext. intros _ j _. unfold tuplesAt. simpl.
        rewrite Nat.Div0.add_mod_idemp_l. do 3 f_equal. lia.
      * rewrite Nat.Div0.add_mod_idemp_l. do 2 f_equal. lia.
    + apply Nat.mod_upper_bound. lia.
    + intros j Hj. destruct (Hdata (S j)) as [t Ht]; [lia |]. exists t.
      unfold tuplesAt in *. rewrite Nat.Div0.add_mod_idemp_l.
      now replace (i + 1 + j)%nat with (i + S j)%nat by lia.
Qed.

(** Once [nextYear] is a year without entry in [data], every call without
    argument throws and leaves [nextYear] where it is. *)
Lemma animation_stuck (data : Map string (list ScatterPlot.DataTuple)) (n : nat)
    (nextYear : option string) :
  nextYear ≫= (fun key => JSMap.get key data) = None ->
  ScatterPlot.animation years data n nextYear = (replicate n None, nextYear).
Proof.
  intros Hnone. induction n as [|n IH]; [reflexivity |].
  cbn [ScatterPlot.animation]. unfold ScatterPlot.animateScatterPlot.
  rewrite Hnone, IH. reflexivity.
Qed.
End animation_facts.

(** X16: with pairwise distinct [years], the year after the one at position
    [i] is the one at position [i + 1], the first year after the last one; the
    year after a year that is not in [years], or after [undefined], is the
    first year.  Calls of [animateScatterPlot] without argument, starting with
    [nextYear] at position [i], draw the tuples of the years in their cyclic
    order as long as [data] has an entry for each of these years, and
    [nextYear] moves on by one position per call.  A call for a year without
    entry in [data] throws and leaves [nextYear] at that year, so every later
    call without argument throws as well: the animation does not get past a
    year that [data] lacks. *)
Theorem animation_cycles (years : list string)
    (data : Map string (list ScatterPlot.DataTuple)) :
  NoDup years ->
  (forall i y, years !! i = Some y ->
     ScatterPlot.following years (Some y) = years !! ((i + 1) mod length years)%nat) /\
  (forall y, y ∉ years -> ScatterPlot.following years (Some y) = years !! 0%nat) /\
  ScatterPlot.following years None = years !! 0%nat /\
  (forall i n, (i < length years)%nat ->
     (forall j, (j < n)%nat -> is_Some (tuplesAt years data (i + j))) ->
     ScatterPlot.animation years data n (years !! i)
     = (tuplesAt years data <$> seq i n, years !! ((i + n) mod length years)%nat)) /\
  (forall year nextYear,
     JSMap.get year data = None ->
     ScatterPlot.animateScatterPlot years data (Some year) nextYear = (None, Some year)) /\
  (forall nextYear n,
     nextYear ≫= (fun key => JSMap.get key data) = None ->
     ScatterPlot.animation years data n nextYear = (replicate n None, nextYear)).
Proof.
  intros Hnd. split; [|split; [|split; [|split; [|split]]]].
  - intros i y Hi. now apply following_lookup.
  - intros y Hy. unfold ScatterPlot.following. simpl.
    now rewrite (indexOf_absent years y Hy), Nat.Div0.mod_0_l.
  - unfold ScatterPlot.following. simpl. now rewrite Nat.Div0.mod_0_l.
  - intros i n Hi Hdata. now apply animation_from.
  - intros year nextYear Hnone. unfold ScatterPlot.animateScatterPlot.
    cbn [mbind option_bind]. now rewrite Hnone.
  - intros nextYear n Hnone. now apply animation_stuck.
Qed.

(** The tuples of one country per year, for the years 2010 to 2013 only. *)
Definition four_years : Map string (list ScatterPlot.DataTuple) :=
  (fun year =>
     (year, [{| ScatterPlot.country := "Chile";
                ScatterPlot.gini := parseFloat (JSString "44.4");
                ScatterPlot.gdp := parseInt (JSString year) |}]))
  <$> take 4 years.

(** From 2012 on, two calls draw 2012 and 2013 and leave [nextYear] at 2014,
    for which [four_years] has no entry. *)
Lemma animation_cycles_witness :
  ScatterPlot.animation years four_years 2 (Some "2012")
  = ([JSMap.get "2012" four_years; JSMap.get "2013" four_years], Some "2014") /\
  is_Some (JSMap.get "2012" four_years) /\
  is_Some (JSMap.get "2013" four_years).
Proof.
  split; [|split; eexists; reflexivity].
  change (Some "2012") with (years !! 2%nat).
  rewrite (proj1 (proj2 (proj2 (proj2
             (animation_cycles years four_years ltac:(compute_done))))) 2%nat 2%nat).
  - reflexivity.
  - simpl. lia.
  - intros j Hj. destruct j as [|[|j]]; [eexists; reflexivity .. | lia].
Defined.

(** In [four_years] the animation stops at 2014: the calls after the two
    above all throw. *)
Example animation_stops :
  ScatterPlot.animation years four_years 5 (Some "2012")
  = ([JSMap.get "2012" four_years; JSMap.get "2013" four_years; None; None; None],
     Some "2014").
Proof. vm_compute. reflexivity. Qed.

(** ** [ScatterPlot]: the value ranges *)

(** A tuple that the loop of [create] counts: both values are finite. *)
Definition counted (d : ScatterPlot.DataTuple) : Prop :=
  isFinite (ScatterPlot.xValue d) = true /\ isFinite (ScatterPlot.yValue d) = true.

#[global] Instance counted_dec (d : ScatterPlot.DataTuple) : Decision (counted d).
Proof. unfold counted. apply _. Defined.

Definition ranges_of (x y : Limit) : ScatterPlot.Ranges :=
  {| ScatterPlot.xMax := Limit.max x; ScatterPlot.xMin := Limit.min x;
     ScatterPlot.yMax := Limit.max y; ScatterPlot.yMin := Limit.min y |}.

Lemma ranges_year (year : list ScatterPlot.DataTuple) (x y : Limit) :
  foldl (fun r country =>
           if negb (isFinite (ScatterPlot.xValue country))
              || negb (isFinite (ScatterPlot.yValue country))
           then r
           else {| ScatterPlot.xMax := Math_max (ScatterPlot.xMax r) (ScatterPlot.xValue country);
                   ScatterPlot.xMin := Math_min (ScatterPlot.xMin r) (ScatterPlot.xValue country);
                   ScatterPlot.yMax := Math_max (ScatterPlot.yMax r) (ScatterPlot.yValue country);
                   ScatterPlot.yMin := Math_min (ScatterPlot.yMin r) (ScatterPlot.yValue country) |})
        (ranges_of x y) year
  = ranges_of (expandAll (ScatterPlot.xValue <$> filter counted year) x)
              (expandAll (ScatterPlot.yValue <$> filter counted year) y).
Proof.
  revert x y; induction year as [|d year IH]; intros x y; [reflexivity |].
  cbn [foldl]. rewrite filter_cons.
  destruct (decide (counted d)) as [[Hx Hy]|Hno].
  - rewrite Hx, Hy. cbn [negb orb fmap list_fmap].
    change (expandAll (ScatterPlot.xValue d :: ?l) x)
      with (expandAll l (Limit.expandRange (ScatterPlot.xValue d) x)).
    change (expandAll (ScatterPlot.yValue d :: ?l) y)
      with (expandAll l (Limit.expandRange (ScatterPlot.yValue d) y)).
    rewrite <- IH. f_equal.
    unfold ranges_of, Limit.expandRange. rewrite Hx, Hy. cbn.
    now rewrite (JSNumberFacts.Math_max_comm (Limit.max x)),
                (JSNumberFacts.Math_min_comm (Limit.min x)),
                (JSNumberFacts.Math_max_comm (Limit.max y)),
                (JSNumberFacts.Math_min_comm (Limit.min y)).
  - assert (negb (isFinite (ScatterPlot.xValue d))
            || negb (isFinite (ScatterPlot.yValue d)) = true) as ->; [|apply IH].
    destruct (isFinite (ScatterPlot.xValue d)) eqn:Hx,
             (isFinite (ScatterPlot.yValue d)) eqn:Hy; try reflexivity.
    exfalso. apply Hno. now split.
Qed.

Lemma ranges_years (lists : list (list ScatterPlot.DataTuple)) (x y : Limit) :
  foldl (fun r year =>
           foldl (fun r country =>
                    if negb (isFinite (ScatterPlot.xValue country))
                       || negb (isFinite (ScatterPlot.yValue country))
                    then r
                    else {| ScatterPlot.xMax := Math_max (ScatterPlot.xMax r) (ScatterPlot.xValue country);
                            ScatterPlot.xMin := Math_min (ScatterPlot.xMin r) (ScatterPlot.xValue country);
                            ScatterPlot.yMax := Math_max (ScatterPlot.yMax r) (ScatterPlot.yValue country);
                            ScatterPlot.yMin := Math_min (ScatterPlot.yMin r) (ScatterPlot.yValue country) |})
                 r year)
        (ranges_of x y) lists
  = ranges_of (expandAll (ScatterPlot.xValue <$> filter counted (mjoin lists)) x)
              (expandAll (ScatterPlot.yValue <$> filter counted (mjoin lists)) y).
Proof.
  revert x y; induction lists as [|year lists IH]; intros x y; [reflexivity |].
  cbn [foldl]. rewrite ranges_year, IH.
  change (mjoin (year :: lists)) with (year ++ mjoin lists).
  now rewrite filter_app, !fmap_app, !expandAll_app.
Qed.

(** X17: the ranges [create] computes are those of two Limits, one expanded
    with the [gini] and one with the [gdp] of the tuples whose two values are
    both finite, over all years in the order of the map; a tuple with one value
    that is not finite widens neither range. *)
Theorem ranges_as_limits (data : Map string (list ScatterPlot.DataTuple)) :
  let tuples := filter counted (mjoin (JSMap.values data)) in
  let x := expandAll (ScatterPlot.gini <$> tuples) Limit.new in
  let y := expandAll (ScatterPlot.gdp <$> tuples) Limit.new in
  ScatterPlot.ranges data
  = {| ScatterPlot.xMax := Limit.max x; ScatterPlot.xMin := Limit.min x;
       ScatterPlot.yMax := Limit.max y; ScatterPlot.yMin := Limit.min y |}.
Proof.
  cbv zeta. unfold ScatterPlot.ranges.
  change {| ScatterPlot.xMax := NEGATIVE_INFINITY; ScatterPlot.xMin := POSITIVE_INFINITY;
            ScatterPlot.yMax := NEGATIVE_INFINITY; ScatterPlot.yMin := POSITIVE_INFINITY |}
    with (ranges_of Limit.new Limit.new).
  rewrite ranges_years. reflexivity.
Qed.

(** ** Several names for one country: the last one is kept *)
Section join_last.
Variable index : gmap string string.
Variable sources : ResourceID -> Map string DSVRowString.

Lemma join_app (before rest : list string) (dataSource result : DataSource) :
  join index sources (before ++ rest) dataSource = Ok result ->
  exists middle,
    join index sources before dataSource = Ok middle /\
    join index sources rest middle = Ok result.
Proof.
  revert dataSource; induction before as [|n before IH]; intros st Hjoin.
  - exists st. split; [reflexivity | exact Hjoin].
  - simpl app in Hjoin.
    apply join_cons_Ok in Hjoin as (code & info & Hcode & Hinfo & Hjoin).
    destruct (IH _ Hjoin) as (middle & Hbefore & Hrest).
    exists middle. split; [|exact Hrest].
    rewrite join_cons, Hcode, Hinfo. exact Hbefore.
Qed.

(** A key of [data] keeps its value while no name with that display name is
    joined. *)
Lemma join_data_frame (names : list string) (dataSource result : DataSource)
    (key : string) :
  join index sources names dataSource = Ok result ->
  (forall name, name ∈ names -> displayName index (store dataSource) name <> Some key) ->
  JSMap.get key (data result) = JSMap.get key (data dataSource).
Proof.
  revert dataSource; induction names as [|n names IH]; intros st Hjoin Hno.
  - now injection Hjoin as <-.
  - apply join_cons_Ok in Hjoin as (code & info & Hcode & Hinfo & Hjoin).
    rewrite (IH _ Hjoin).
    + cbn [data joined]. rewrite JSMapFacts.get_set.
      destruct (decide (key = Country.name info)) as [->|]; [|reflexivity].
      exfalso. apply (Hno n); [apply list_elem_of_here |].
      unfold displayName. rewrite Hcode. simpl. now rewrite Hinfo.
    + intros name Hin. rewrite displayName_joined by assumption.
      now apply Hno, list_elem_of_further.
Qed.

Lemma join_last_name (before after : list string) (name code : string)
    (dataSource result : DataSource) (info : Country) :
  join index sources (before ++ name :: after) dataSource = Ok result ->
  index !! JSString.trim name = Some code ->
  store dataSource !! code = Some info ->
  (forall later, later ∈ after ->
     displayName index (store dataSource) later <> Some (Country.name info)) ->
  getCountry result (Country.name info)
  = Some (Country.assign_stats info (countryStats sources (JSString.trim name))).
Proof.
  intros Hjoin Hcode Hinfo Hafter.
  apply join_app in Hjoin as (middle & Hbefore & Hrest).
  pose proof (join_store _ _ _ _ _ Hbefore code) as Hmiddle. rewrite Hinfo in Hmiddle.
  destruct Hmiddle as (info' & Hinfo' & Hc & Hn & Hr & _).
  apply join_cons_Ok in Hrest as (code' & info'' & Hcode' & Hinfo'' & Hrest).
  assert (code' = code) as -> by congruence.
  assert (info'' = info') as -> by congruence.
  assert (forall later, later ∈ after ->
            displayName index (store (joined sources middle code info' (JSString.trim name)))
              later <> Some (Country.name info)) as Hafter'.
  { intros later Hlater Hdn. apply (Hafter later Hlater).
    rewrite displayName_joined in Hdn by assumption.
    unfold displayName in *.
    destruct (index !! JSString.trim later) as [c|]; [simpl in * | discriminate].
    pose proof (join_store _ _ _ _ _ Hbefore c) as Hc'.
    destruct (store dataSource !! c) as [i|].
    - destruct Hc' as (i' & Hi' & _ & Hname & _). rewrite Hi' in Hdn. simpl in *. congruence.
    - rewrite Hc' in Hdn. discriminate. }
  unfold getCountry.
  rewrite (join_data_frame _ _ _ _ Hrest Hafter'). cbn [data joined].
  rewrite Hn, JSMapFacts.get_set.
  destruct (decide (Country.name info = Country.name info)); [simpl | contradiction].
  pose proof (join_store _ _ _ _ _ Hrest code) as Hfinal. cbn [store joined] in Hfinal.
  rewrite lookup_insert_eq in Hfinal.
  destruct Hfinal as (final & Hfinal & _ & _ & _ & _ & Hsame & _).
  rewrite Hfinal. f_equal. rewrite Hsame.
  - unfold Country.assign_stats. now rewrite Hc, Hn, Hr.
  - intros later Hlater Hres. apply (Hafter' later Hlater).
    unfold displayName. rewrite Hres. simpl. cbn [store joined].
    rewrite lookup_insert_eq. simpl. now rewrite Hn.
Qed.
End join_last.

(** South Korea under two names of the gdp source. *)
Definition two_names : Resources :=
  {| countries_json := [KOR];
     csv := fun resourceID =>
       match resourceID with
       | ResourceID.gdp => [yearly "South Korea" "27000"; yearly "Korea (Republic of)" "31000"]
       | _ => []
       end |}.

(** X18: when a name of the gdp source resolves to a country and no later name
    of the gdp source resolves to a country with the same display name,
    [getCountry] of that display name returns the country with the statistics
    read for that name: of several gdp rows for one country the last one is
    kept. *)
Theorem last_name_is_kept (resources : Resources) (result : DataSource)
    (before after : list string) (name code : string) (info : Country) :
  loadData resources = Ok result ->
  let countries := readCountryInfoDB (countries_json resources) in
  anchorNames resources = before ++ name :: after ->
  nameToCode countries !! name = Some code ->
  infoFromCode countries !! code = Some info ->
  (forall later, later ∈ after ->
     displayName (nameToCode countries) (infoFromCode countries) later
     <> Some (Country.name info)) ->
  getCountry result (Country.name info)
  = Some {| Country.code := Country.code info;
            Country.name := Country.name info;
            Country.region := Country.region info;
            Country.stats := Some (countryStats (loaded resources) name) |}.
Proof.
  intros Hload countries Hnames Hcode Hinfo Hafter.
  assert (JSString.trim name = name) as Htrim.
  { apply (anchorNames_trimmed resources). rewrite Hnames.
    apply elem_of_app. right. apply list_elem_of_here. }
  rewrite loadData_join, Hnames in Hload. fold countries in Hload.
  rewrite <- Htrim in Hcode.
  rewrite (join_last_name _ _ _ _ _ _ _ _ _ Hload Hcode Hinfo Hafter).
  now rewrite Htrim.
Qed.

Lemma last_name_is_kept_witness :
  exists result country,
    loadData two_names = Ok result /\
    getCountry result "South Korea" = Some country /\
    Country.stats country = Some (countryStats (loaded two_names) "Korea (Republic of)").
Proof.
  destruct (loadData two_names) as [result|] eqn:Hload;
    [|vm_compute in Hload; discriminate].
  eexists result, _. split; [reflexivity |]. split.
  - apply (last_name_is_kept two_names result ["South Korea"] []
             "Korea (Republic of)" "KOR" (infoOf KOR) Hload).
    + reflexivity.
    + vm_compute. reflexivity.
    + vm_compute. reflexivity.
    + intros later Hin. inversion Hin.
  - reflexivity.
Defined.
